(** * vpt_core.io.image: tile reading, image-set assembly and preparation

    A shallow embedding of [src/vpt_core/io/image.py].  Python dictionaries
    are finite maps ([gmap]), Python integers are [Z], exceptions are values
    of [exn] carried by an error monad, and the two sources of effects of the
    module (the raster store read by [read_tile] and the text it prints) are
    threaded explicitly through a state-and-error monad.  What
    [get_prepared_images] does to the dictionaries it is given and to those
    it creates is modelled a second time, on a store of dictionary
    objects. *)

From stdpp Require Import base option list strings pretty gmap fin_maps fin_sets sorting.
From Stdlib Require Import Ascii.
From Stdlib Require QArith.QArith_base QArith.Qreduction QArith.Qcanon.

Local Open Scope string_scope.
Local Open Scope list_scope.
Local Open Scope Z_scope.

Set Warnings "-clear-no-such-hyp".

(** ** Exceptions and results *)

(** The key of a failed dictionary subscript: channel names are strings,
    z-layers are integers. *)
Inductive pykey : Type :=
| KStr (s : string)
| KInt (z : Z).

(** The exceptions the module raises or lets through.  [IOError] is an alias
    of [OSError] in Python 3.  [ExternalError] stands for an exception of a
    collaborator that is not an [OSError] (it is never caught here). *)
Inductive exn : Type :=
| KeyError (key : pykey)
| IndexError (msg : string)
| ValueError (msg : string)
| ZeroDivisionError (msg : string)
| OSError (msg : string)
| ExternalError (name : string).

Inductive result (A : Type) : Type :=
| Ok (a : A)
| Raise (e : exn).
Arguments Ok {A} a.
Arguments Raise {A} e.

#[global] Instance result_ret : MRet result := λ A a, Ok a.
#[global] Instance result_bind : MBind result := λ A B f m,
  match m with
  | Ok a => f a
  | Raise e => Raise e
  end.

Definition is_ok {A} (r : result A) : bool :=
  match r with Ok _ => true | Raise _ => false end.

(** [d[k]] on a dictionary: [KeyError] when the key is missing. *)
Definition getitem {K V} `{Countable K} (key_of : K → pykey)
    (d : gmap K V) (k : K) : result V :=
  match d !! k with
  | Some v => Ok v
  | None => Raise (KeyError (key_of k))
  end.

(** [l[i]] on a list with a non-negative index. *)
Definition list_getitem {A} (l : list A) (i : nat) : result A :=
  match l !! i with
  | Some x => Ok x
  | None => Raise (IndexError "list index out of range")
  end.

(** ** Text *)

Definition dquote : string := String (Ascii.ascii_of_nat 34) EmptyString.

(** [str] of a Python [int]. *)
Definition str_int (z : Z) : string := pretty z.

(** The characters of the decimal notation of an integer: the digits and the
    minus sign. *)
Definition is_int_char (c : Ascii.ascii) : bool :=
  bool_decide (c ∈ ["0"; "1"; "2"; "3"; "4"; "5"; "6"; "7"; "8"; "9"; "-"]%char).

Fixpoint string_all (p : Ascii.ascii → bool) (s : string) : bool :=
  match s with
  | EmptyString => true
  | String c s' => p c && string_all p s'
  end.

(** ** numpy arrays

    An array is its shape and its elements in row-major order.  Only the
    numpy functions the module calls are modelled. *)
Record ndarray : Type := NDArray { shape : list Z; data : list Z }.

#[global] Instance ndarray_eq_dec : EqDecision ndarray.
Proof. solve_decision. Defined.

(** [np.squeeze]: the axes of length one are removed. *)
Definition np_squeeze (a : ndarray) : ndarray :=
  NDArray (filter (λ n, n ≠ 1) (shape a)) (data a).

Definition same_shape (a b : ndarray) : bool := bool_decide (shape a = shape b).

(** Elements of [np.stack(arrays, axis=-1)]: for every position, the element
    of each array at that position. *)
Definition interleave (cols : list (list Z)) : list Z :=
  flat_map (λ i, omap (λ c, c !! i) cols) (seq 0 (length (default [] (head cols)))).

(** [np.stack(arrays, axis=-1)]. *)
Definition np_stack_last (arrays : list ndarray) : result ndarray :=
  match arrays with
  | [] => Raise (ValueError "need at least one array to stack")
  | a :: rest =>
      if forallb (same_shape a) rest
      then Ok (NDArray (shape a ++ [Z.of_nat (length arrays)]) (interleave (data <$> arrays)))
      else Raise (ValueError "all input arrays must have the same shape")
  end.

(** [np.array(rows)] on a list of arrays. *)
Definition np_array (rows : list ndarray) : result ndarray :=
  match rows with
  | [] => Ok (NDArray [0] [])
  | a :: rest =>
      if forallb (same_shape a) rest
      then Ok (NDArray (Z.of_nat (length rows) :: shape a) (concat (data <$> rows)))
      else Raise (ValueError "setting an array element with a sequence: inhomogeneous shape")
  end.

(** ** ImageInfo and ImageSet *)

Record ImageInfo : Type := mkImageInfo {
  channel : string;
  z_layer : Z;
  full_path : string
}.

(** [ImageSet(Dict[str, Dict[int, np.ndarray]])]. *)
Abbreviation ImageSet := (gmap string (gmap Z ndarray)).

(** Truth value of [images.get(k)] and of [order]: [None] and empty
    containers are false. *)
Definition dict_truthy {K V} `{Countable K} (o : option (gmap K V)) : bool :=
  match o with
  | None => false
  | Some d => negb (bool_decide (d = ∅))
  end.

Definition list_truthy {A} (o : option (list A)) : bool :=
  match o with
  | None | Some [] => false
  | Some (_ :: _) => true
  end.

(** [self.values()]. *)
Definition values (self : ImageSet) : list (gmap Z ndarray) := (map_to_list self).*2.

(** [ImageSet.z_levels]: the union of the key sets of [self.values()]. *)
Definition z_levels (self : ImageSet) : gset Z := ⋃ (dom <$> values self).

(** [ImageSet.as_list]: [list(self.get(key, {}).values())]. *)
Definition as_list (self : ImageSet) (key : string) : list ndarray :=
  (map_to_list (default ∅ (self !! key))).*2.

(** [ImageSet.as_stack].  The comprehension over [self.z_levels()] is
    evaluated left to right: for one z-layer every subscript is evaluated,
    then [np.stack] is called, then the next z-layer is visited. *)
Definition as_stack (self : ImageSet) (order : option (list string)) : result ndarray :=
  if negb (list_truthy order) then
    rows ← mapM (λ z, cols ← mapM (λ z_stack, getitem KInt z_stack z) (values self);
                      np_stack_last cols)
                (elements (z_levels self));
    np_array rows
  else
    rows ← mapM (λ z, cols ← mapM (λ k, z_stack ← getitem KStr self k;
                                        getitem KInt z_stack z)
                                  (default [] order);
                      np_stack_last cols)
                (elements (z_levels self));
    np_array rows.

(** ** The raster store and the state of a run *)

(** [Tuple[int, int, int, int]]: the arguments of [rasterio.windows.Window]. *)
Definition Window : Type := Z * Z * Z * Z.

(** [str] of the window tuple. *)
Definition str_window (window : Window) : string :=
  let '(a, b, c, d) := window in
  "(" +:+ str_int a +:+ ", " +:+ str_int b +:+ ", " +:+ str_int c +:+ ", "
      +:+ str_int d +:+ ")".

(** What one attempt (the body of the [try] of [read_tile]: entering the
    rasterio environment, opening the file, reading band 1 in the window)
    does: it yields the band, raises an [OSError], or raises something that
    [except OSError] does not catch. *)
Inductive read_outcome : Type :=
| ReadOk (image : ndarray)
| ReadOSError
| ReadFatal (name : string).

(** The raster store is outside the module: an attempt is a transition of
    the outside world. *)
Class RasterStore : Type := {
  World : Type;
  raster_read : string → Window → World → read_outcome * World
}.

Section io.
Context `{RasterStore}.

(** The state of a run: the outside world and the lines printed so far. *)
Record state : Type := State { world : World; stdout : list string }.

Definition M (A : Type) : Type := state → result A * state.

#[global] Instance M_ret : MRet M := λ A a st, (Ok a, st).
#[global] Instance M_bind : MBind M := λ A B f m st,
  match m st with
  | (Ok a, st') => f a st'
  | (Raise e, st') => (Raise e, st')
  end.

Definition raise {A} (e : exn) : M A := λ st, (Raise e, st).

Definition lift {A} (r : result A) : M A := λ st, (r, st).

(** [print(line)]. *)
Definition print (line : string) : M unit :=
  λ st, (Ok tt, State (world st) (stdout st ++ [line])).

(** One attempt of the [try] body. *)
Definition attempt (path : string) (window : Window) : M read_outcome :=
  λ st, let '(o, w) := raster_read path window (world st) in (Ok o, State w (stdout st)).

(** ** read_tile *)

Definition retry_msg (path : string) (window : Window) (try_number num_retries : Z) : string :=
  "Failed to read " +:+ path +:+ " at " +:+ str_window window +:+ ". Retrying "
    +:+ str_int try_number +:+ "/" +:+ str_int num_retries +:+ ".".

Definition read_failed_msg (path : string) (window : Window) : string :=
  "Failed to read " +:+ path +:+ " at " +:+ str_window window.

(** The [for try_number in range(1, num_tries + 1)] loop with its [else]
    clause, over the remaining values of [try_number]. *)
Fixpoint read_tile_loop (window : Window) (path : string) (num_tries num_retries : Z)
    (tries : list Z) : M ndarray :=
  match tries with
  | [] => raise (OSError (read_failed_msg path window))
  | try_number :: rest =>
      o ← attempt path window;
      match o with
      | ReadOk image => mret (np_squeeze image)
      | ReadOSError =>
          (if bool_decide (try_number + 1 ≤ num_tries)
           then print (retry_msg path window try_number num_retries)
           else mret tt);;
          read_tile_loop window path num_tries num_retries rest
      | ReadFatal name => raise (ExternalError name)
      end
  end.

Definition read_tile (window : Window) (path : string) (num_tries : Z) : M ndarray :=
  let num_retries := num_tries - 1 in
  read_tile_loop window path num_tries num_retries (seqZ 1 num_tries).

(** ** get_segmentation_images *)

Fixpoint get_segmentation_images_loop (images_info : list ImageInfo) (window_info : Window)
    (images : ImageSet) : M ImageSet :=
  match images_info with
  | [] => mret images
  | image_info :: rest =>
      let images :=
        if negb (dict_truthy (images !! channel image_info))
        then <[channel image_info := ∅]> images
        else images in
      tile ← read_tile window_info (full_path image_info) 5;
      z_stack ← lift (getitem KStr images (channel image_info));
      get_segmentation_images_loop rest window_info
        (<[channel image_info := <[z_layer image_info := tile]> z_stack]> images)
  end.

Definition get_segmentation_images (images_info : list ImageInfo) (window_info : Window)
    : M ImageSet :=
  get_segmentation_images_loop images_info window_info ∅.

End io.

(** ** Floating point

    The scale of an image is the quotient of two Python [int]s, a [float].
    The module only divides, compares and returns such quotients, so the
    floats are kept abstract: a type of values with the comparison [<] and
    the true division of integers.  Quotients of integers are never NaN, so
    [<] is a strict total order on them, and [n / n] is [1.0]; these are the
    only facts about floats the proofs use, and binary64 quotients have
    them. *)
Class FloatModel : Type := {
  float : Type;
  float_eq_dec :: EqDecision float;
  float_ltb : float → float → bool;
  truediv : Z → Z → float;
  float_one : float;
  float_ltb_irrefl : ∀ x, float_ltb x x = false;
  float_ltb_trans : ∀ x y z,
    float_ltb x y = true → float_ltb y z = true → float_ltb x z = true;
  float_ltb_total : ∀ x y, x ≠ y → float_ltb x y = true ∨ float_ltb y x = true;
  truediv_self : ∀ n, n ≠ 0 → truediv n n = float_one
}.

(** Modelled from the spec: the preprocessing pipelines and
    [create_filter_by_sequence] ([vpt_core.image.filter_factory]) are not part
    of the sources.  A pipeline description is turned into a callable taking
    the ordered z-stack of one channel and returning a sequence of arrays.
    Building the callable is taken to succeed; the callable may raise, and
    the sequence it returns may be of any length. *)
Class FilterFactory : Type := {
  Preprocessing : Type;
  create_filter_by_sequence : Preprocessing → list ndarray → result (list ndarray)
}.

Section prepare.
Context `{FloatModel} `{FilterFactory}.

(** Modelled from the spec: [SegTask] ([vpt_core.segmentation.segmentation_task])
    is not part of the sources.  A task has an identifier, the set of
    z-layers it works on and the ordered list of its inputs, each a channel
    with its preprocessing pipeline. *)
Record InputData : Type := mkInputData {
  image_channel : string;
  image_preprocessing : Preprocessing
}.

Record SegTask : Type := mkSegTask {
  task_id : Z;
  z_layers : gset Z;
  task_input_data : list InputData
}.

Definition Scale : Type := float * float.

(** [a < b] and [a > b] on pairs of floats: the first differing component
    decides. *)
Definition scale_lt (a b : Scale) : bool :=
  if bool_decide (a.1 ≠ b.1) then float_ltb a.1 b.1
  else if bool_decide (a.2 ≠ b.2) then float_ltb a.2 b.2
  else false.

Definition scale_gt (a b : Scale) : bool :=
  if bool_decide (a.1 ≠ b.1) then float_ltb b.1 a.1
  else if bool_decide (a.2 ≠ b.2) then float_ltb b.2 a.2
  else false.

(** [min(l)] and [max(l)]: the first smallest and the first largest item. *)
Definition py_min (l : list Scale) : result Scale :=
  match l with
  | [] => Raise (ValueError "min() arg is an empty sequence")
  | x :: rest => Ok (fold_left (λ m item, if scale_lt item m then item else m) rest x)
  end.

Definition py_max (l : list Scale) : result Scale :=
  match l with
  | [] => Raise (ValueError "max() arg is an empty sequence")
  | x :: rest => Ok (fold_left (λ m item, if scale_gt item m then item else m) rest x)
  end.

(** [a.shape[i]]. *)
Definition shape_getitem (a : ndarray) (i : nat) : result Z :=
  match shape a !! i with
  | Some n => Ok n
  | None => Raise (IndexError "tuple index out of range")
  end.

(** [x / y] on Python [int]s. *)
Definition py_truediv (x y : Z) : result float :=
  if bool_decide (y = 0) then Raise (ZeroDivisionError "division by zero")
  else Ok (truediv x y).

(** [(im.shape[0] / cur_im.shape[0], im.shape[1] / cur_im.shape[1])]. *)
Definition image_scale (p : ndarray * ndarray) : result Scale :=
  let '(im, cur_im) := p in
  h ← shape_getitem im 0;
  cur_h ← shape_getitem cur_im 0;
  row_scale ← py_truediv h cur_h;
  w ← shape_getitem im 1;
  cur_w ← shape_getitem cur_im 1;
  col_scale ← py_truediv w cur_w;
  Ok (row_scale, col_scale).

Definition no_channel_images_msg (image_channel : string) (task_id : Z) : string :=
  "Invalid experiment: no " +:+ dquote +:+ image_channel +:+ dquote
    +:+ " input images found for the task " +:+ str_int task_id.

Definition scale_mismatch_msg : string :=
  "Invalid preprocessing scale: input images for segmentation after postprocessing "
    +:+ "should have same sizes".

Definition no_images_msg (task_id : Z) : string :=
  "Invalid experiment: no input images found for the task " +:+ str_int task_id.

(** [sorted([z for z in z_stack if z in task.z_layers])]. *)
Definition task_z_of (task : SegTask) (z_stack : gmap Z ndarray) : list Z :=
  merge_sort Z.le (filter (λ z, z ∈ z_layers task) (map_to_list z_stack).*1).

(** [{z: filtered_images[i] for i, z in enumerate(task_z)}], from index [i]. *)
Fixpoint dict_of_enumerate (filtered_images : list ndarray) (i : nat) (task_z : list Z)
    (acc : gmap Z ndarray) : result (gmap Z ndarray) :=
  match task_z with
  | [] => Ok acc
  | z :: rest =>
      im ← list_getitem filtered_images i;
      dict_of_enumerate filtered_images (S i) rest (<[z := im]> acc)
  end.

(** One iteration of the loop of [get_prepared_images], on the loop variables
    [cur_images] and [scale]. *)
Definition prepare_input (task : SegTask) (images : ImageSet)
    (vars : ImageSet * option Scale) (input_info : InputData)
    : result (ImageSet * option Scale) :=
  let '(cur_images, scale) := vars in
  let image_filter := create_filter_by_sequence (image_preprocessing input_info) in
  z_stack ← getitem KStr images (image_channel input_info);
  let task_z := task_z_of task z_stack in
  task_images ← mapM (λ z, z_stack ← getitem KStr images (image_channel input_info);
                           getitem KInt z_stack z) task_z;
  if bool_decide (length task_z = 0%nat) then
    Raise (ValueError (no_channel_images_msg (image_channel input_info) (task_id task)))
  else
    filtered_images ← image_filter task_images;
    cur_scale ← mapM image_scale (zip task_images filtered_images);
    lo ← py_min cur_scale;
    hi ← py_max cur_scale;
    differs ← (if bool_decide (lo ≠ hi) then Ok true
               else match scale with
                    | None => Ok false
                    | Some s => first ← list_getitem cur_scale 0;
                                Ok (bool_decide (s ≠ first))
                    end);
    if differs : bool then Raise (ValueError scale_mismatch_msg)
    else
      first ← list_getitem cur_scale 0;
      z_dict ← dict_of_enumerate filtered_images 0 task_z ∅;
      Ok (<[image_channel input_info := z_dict]> cur_images, Some first).

(** The [for input_info in task.task_input_data] loop. *)
Fixpoint prepare_loop (task : SegTask) (images : ImageSet)
    (vars : ImageSet * option Scale) (inputs : list InputData)
    : result (ImageSet * option Scale) :=
  match inputs with
  | [] => Ok vars
  | input_info :: rest =>
      vars' ← prepare_input task images vars input_info;
      prepare_loop task images vars' rest
  end.

Definition get_prepared_images (task : SegTask) (images : ImageSet)
    : result (ImageSet * Scale) :=
  vars ← prepare_loop task images (∅, None) (task_input_data task);
  match vars.2 with
  | None => Raise (ValueError (no_images_msg (task_id task)))
  | Some scale => Ok (vars.1, scale)
  end.

End prepare.

(** ** The store of dictionary objects

    [get_prepared_images] receives its image set by reference, builds new
    dictionaries and returns a reference to a new image set.  To say what a
    call does to the objects that exist when it is made, the dictionaries are
    objects of a store: an [ImageSet] object maps channel names to references
    to z-stack objects, a z-stack object maps z-layers to arrays.  A
    reference is an index into the store, a new object is put at the end.
    Arrays are kept as values: the function never writes to an array, and a
    pipeline is a fixed function of the values of the arrays it is given.  A
    subscript on a reference to an object of another kind is a [TypeError]. *)
Abbreviation loc := nat (only parsing).

Inductive pyobj : Type :=
| ImageSetObj (channels : gmap string loc)
| ZStackObj (layers : gmap Z ndarray).

Abbreviation store := (list pyobj).

Definition Run (A : Type) : Type := store → result A * store.

#[global] Instance Run_ret : MRet Run := λ A a h, (Ok a, h).
#[global] Instance Run_bind : MBind Run := λ A B f m h,
  match m h with
  | (Ok a, h') => f a h'
  | (Raise e, h') => (Raise e, h')
  end.

Module Store.

Definition raise {A} (e : exn) : Run A := λ h, (Raise e, h).

Definition lift {A} (r : result A) : Run A := λ h, (r, h).

(** A new dictionary object: [ImageSet()] or a dictionary display. *)
Definition new_object (o : pyobj) : Run loc := λ h, (Ok (length h), h ++ [o]).

(** [images[key]] on an [ImageSet] object. *)
Definition imageset_getitem (images : loc) (key : string) : Run loc := λ h,
  match h !! images with
  | Some (ImageSetObj channels) => (getitem KStr channels key, h)
  | _ => (Raise (ExternalError "TypeError"), h)
  end.

(** [images[key] = value] on an [ImageSet] object. *)
Definition imageset_setitem (images : loc) (key : string) (value : loc) : Run unit := λ h,
  match h !! images with
  | Some (ImageSetObj channels) =>
      (Ok tt, <[images := ImageSetObj (<[key := value]> channels)]> h)
  | _ => (Raise (ExternalError "TypeError"), h)
  end.

(** The keys of a z-stack object, as the iteration over it gives them. *)
Definition zstack_keys (z_stack : loc) : Run (list Z) := λ h,
  match h !! z_stack with
  | Some (ZStackObj layers) => (Ok (map_to_list layers).*1, h)
  | _ => (Raise (ExternalError "TypeError"), h)
  end.

(** [z_stack[z]] on a z-stack object. *)
Definition zstack_getitem (z_stack : loc) (z : Z) : Run ndarray := λ h,
  match h !! z_stack with
  | Some (ZStackObj layers) => (getitem KInt layers z, h)
  | _ => (Raise (ExternalError "TypeError"), h)
  end.

Section run.
Context `{FloatModel} `{FilterFactory}.

(** One iteration of the loop of [get_prepared_images]: [images] and
    [cur_images] are references, [scale] is the local variable. *)
Definition prepare_input (task : SegTask) (images cur_images : loc) (scale : option Scale)
    (input_info : InputData) : Run (option Scale) :=
  let image_filter := create_filter_by_sequence (image_preprocessing input_info) in
  z_stack ← imageset_getitem images (image_channel input_info);
  keys ← zstack_keys z_stack;
  let task_z := merge_sort Z.le (filter (λ z, z ∈ z_layers task) keys) in
  task_images ← mapM (M:=Run)
                  (λ z, z_stack ← imageset_getitem images (image_channel input_info);
                        zstack_getitem z_stack z) task_z;
  if bool_decide (length task_z = 0%nat) then
    raise (ValueError (no_channel_images_msg (image_channel input_info) (task_id task)))
  else
    filtered_images ← lift (image_filter task_images);
    cur_scale ← lift (mapM image_scale (zip task_images filtered_images));
    lo ← lift (py_min cur_scale);
    hi ← lift (py_max cur_scale);
    differs ← lift (if bool_decide (lo ≠ hi) then Ok true
                    else match scale with
                         | None => Ok false
                         | Some s => first ← list_getitem cur_scale 0;
                                     Ok (bool_decide (s ≠ first))
                         end);
    if differs : bool then raise (ValueError scale_mismatch_msg)
    else
      first ← lift (list_getitem cur_scale 0);
      z_dict ← lift (dict_of_enumerate filtered_images 0 task_z ∅);
      new_stack ← new_object (ZStackObj z_dict);
      imageset_setitem cur_images (image_channel input_info) new_stack;;
      mret (Some first).

Fixpoint prepare_loop (task : SegTask) (images cur_images : loc) (scale : option Scale)
    (inputs : list InputData) : Run (option Scale) :=
  match inputs with
  | [] => mret scale
  | input_info :: rest =>
      scale' ← prepare_input task images cur_images scale input_info;
      prepare_loop task images cur_images scale' rest
  end.

Definition get_prepared_images (task : SegTask) (images : loc) : Run (loc * Scale) :=
  cur_images ← new_object (ImageSetObj ∅);
  scale ← prepare_loop task images cur_images None (task_input_data task);
  match scale with
  | None => raise (ValueError (no_images_msg (task_id task)))
  | Some scale => mret (cur_images, scale)
  end.

(** A sequence of calls of [get_prepared_images] on one store, one after the
    other: the caller keeps the result or the exception of every call. *)
Fixpoint session (calls : list (SegTask * loc)) (h : store)
    : list (result (loc * Scale)) * store :=
  match calls with
  | [] => ([], h)
  | (task, images) :: rest =>
      let '(r, h1) := get_prepared_images task images h in
      let '(rs, h2) := session rest h1 in
      (r :: rs, h2)
  end.

End run.

(** The z-stack and the image set that a reference stands for in a store. *)
Definition zstack_at (h : store) (z_stack : loc) : option (gmap Z ndarray) :=
  match h !! z_stack with
  | Some (ZStackObj layers) => Some layers
  | _ => None
  end.

Definition image_set_at (h : store) (images : loc) : option ImageSet :=
  match h !! images with
  | Some (ImageSetObj channels) =>
      if bool_decide (map_Forall (λ _ z_stack, is_Some (zstack_at h z_stack)) channels)
      then Some (omap (zstack_at h) channels)
      else None
  | _ => None
  end.

End Store.

(** ** Concrete collaborators, for running the module on examples *)

(** A scripted raster store: the world is the list of the outcomes of the
    attempts still to come; once the script is exhausted every attempt
    raises an [OSError]. *)
#[global] Instance scripted_store : RasterStore := {|
  World := list read_outcome;
  raster_read := λ _ _ w,
    match w with
    | [] => (ReadOSError, [])
    | o :: w' => (o, w')
    end
|}.

(** Exact rational quotients as a model of the floats: on the integers of the
    examples below the quotients are exactly representable. *)
Definition qc_ltb (x y : Qcanon.Qc) : bool :=
  match Qcanon.Qccompare x y with
  | Lt => true
  | _ => false
  end.

Definition qc_of_Z (n : Z) : Qcanon.Qc := Qcanon.Q2Qc (QArith_base.inject_Z n).

#[global, refine] Instance rational_floats : FloatModel := {|
  float := Qcanon.Qc;
  float_eq_dec := Qcanon.Qc_eq_dec;
  float_ltb := qc_ltb;
  truediv := λ x y, Qcanon.Qcdiv (qc_of_Z x) (qc_of_Z y);
  float_one := qc_of_Z 1
|}.
Proof.
  all: assert (Hlt : ∀ a b, qc_ltb a b = true ↔ Qcanon.Qclt a b)
    by (intros a b; rewrite Qcanon.Qclt_alt; unfold qc_ltb;
        destruct (Qcanon.Qccompare a b); split; congruence).
  - intros x. destruct (qc_ltb x x) eqn:E; [|done].
    apply Hlt in E. by apply Qcanon.Qclt_not_eq in E.
  - intros x y z. rewrite !Hlt. apply Qcanon.Qclt_trans.
  - intros x y Hne. rewrite !Hlt.
    destruct (Qcanon.Qc_dec x y) as [[E|E]|E]; auto. done.
  - intros n Hn. unfold Qcanon.Qcdiv. apply Qcanon.Qcmult_inv_r.
    unfold qc_of_Z. intros E. apply (f_equal Qcanon.this) in E. simpl in E.
    apply Qreduction.Qred_eq_iff in E. unfold QArith_base.Qeq in E. simpl in E. lia.
Defined.

(** Three pipelines: the empty pipeline, a reduction of both axes by an
    integer factor, and one that reduces only its first image. *)
Inductive pipeline : Type :=
| Identity
| Downsample (factor : Z)
| DownsampleFirst (factor : Z).

Definition downsample (factor : Z) (a : ndarray) : ndarray :=
  NDArray ((λ n, n `div` factor) <$> shape a) (data a).

#[global] Instance example_filters : FilterFactory := {|
  Preprocessing := pipeline;
  create_filter_by_sequence := λ p images,
    match p with
    | Identity => Ok images
    | Downsample factor => Ok (downsample factor <$> images)
    | DownsampleFirst factor =>
        match images with
        | [] => Ok []
        | a :: rest => Ok (downsample factor a :: rest)
        end
    end
|}.

Definition img22 : ndarray := NDArray [2; 2] [1; 2; 3; 4].
Definition img44 : ndarray := NDArray [4; 4] [1; 2; 3; 4; 5; 6; 7; 8; 9; 10; 11; 12; 13; 14; 15; 16].

(** An image set with two z-layers of DAPI and one of PolyT. *)
Definition dapi_polyt : ImageSet :=
  {[ "DAPI" := {[ 0 := img44; 1 := img44 ]}; "PolyT" := {[ 0 := img44 ]} ]}.

(** The same with a third channel that has the z-layer 5 only. *)
Definition dapi_polyt_far : ImageSet := <[ "Far" := {[ 5 := img44 ]} ]> dapi_polyt.

(** Tasks on the z-layers 0 and 1 of DAPI and PolyT, with one pipeline for
    each of the two channels. *)
Definition task_on (dapi polyt : pipeline) : SegTask :=
  mkSegTask 7 {[ 0; 1 ]} [mkInputData "DAPI" dapi; mkInputData "PolyT" polyt].

(** The same tasks with the channel Far as a third input, and a task with
    no input at all. *)
Definition task_with_far (dapi polyt : pipeline) : SegTask :=
  mkSegTask 7 {[ 0; 1 ]}
    [mkInputData "DAPI" dapi; mkInputData "PolyT" polyt; mkInputData "Far" Identity].

Definition task_dapi_far : SegTask :=
  mkSegTask 7 {[ 0; 1 ]}
    [@mkInputData example_filters "DAPI" Identity; @mkInputData example_filters "Far" Identity].

Definition task_without_inputs : SegTask := @mkSegTask example_filters 7 {[ 0; 1 ]} [].

(** A tile read in a window of height one: [np.squeeze] leaves one axis.  An
    image set with this tile as the z-layer 0 of DAPI, and the task of the
    identity on DAPI. *)
Definition row_tile : ndarray := np_squeeze (NDArray [1; 4] [1; 2; 3; 4]).

Definition dapi_row : ImageSet := {[ "DAPI" := {[ 0 := row_tile ]} ]}.

Definition task_dapi : SegTask :=
  mkSegTask 7 {[ 0; 1 ]} [@mkInputData example_filters "DAPI" Identity].

(** Pipelines that keep only the first [n] images they are given, and the
    task of such a pipeline on DAPI. *)
Definition truncating_filters : FilterFactory := {|
  Preprocessing := nat;
  create_filter_by_sequence := λ n images, Ok (take n images)
|}.

Definition task_truncating (n : nat) : @SegTask truncating_filters :=
  @mkSegTask truncating_filters 7 {[ 0; 1 ]} [@mkInputData truncating_filters "DAPI" n].

(** A store with the image set [dapi_polyt] at the reference 2. *)
Definition dapi_polyt_store : store :=
  [ZStackObj {[ 0 := img44; 1 := img44 ]}; ZStackObj {[ 0 := img44 ]};
   ImageSetObj {[ "DAPI" := 0%nat; "PolyT" := 1%nat ]}].

(** ** Vocabulary of the statements about the raster store *)

Section io_spec.
Context `{RasterStore}.

(** The outcomes of [n] consecutive attempts on [path] and [window], started
    in the world [w]. *)
Fixpoint attempt_outcomes (path : string) (window : Window) (n : nat) (w : World)
    : list read_outcome :=
  match n with
  | O => []
  | S n => let '(o, w') := raster_read path window w in
           o :: attempt_outcomes path window n w'
  end.

(** How many of the first [n] attempts fail with an [OSError] before one
    does something else. *)
Fixpoint leading_failures (path : string) (window : Window) (n : nat) (w : World) : nat :=
  match n with
  | O => O
  | S n => match raster_read path window w with
           | (ReadOSError, w') => S (leading_failures path window n w')
           | _ => O
           end
  end.

(** The world after [n] consecutive attempts on [path] and [window]. *)
Fixpoint world_after (path : string) (window : Window) (n : nat) (w : World) : World :=
  match n with
  | O => w
  | S n => world_after path window n (raster_read path window w).2
  end.

(** The tiles of a list of descriptors, read one after the other. *)
Definition read_all (images_info : list ImageInfo) (window_info : Window) : M (list ndarray) :=
  mapM (λ image_info, read_tile window_info (full_path image_info) 5) images_info.

End io_spec.

(** The (channel, z-layer) keys of an image set and the array under a key. *)
Definition key_pairs (images : ImageSet) : gset (string * Z) :=
  dom (map_uncurry (M12:=gmap (string * Z)) images).

Definition lookup2 (images : ImageSet) (c : string) (z : Z) : option ndarray :=
  images !! c ≫= (.!! z).

(** The key of a descriptor, and the tile of the last descriptor with a given
    key in a list of descriptors paired with their tiles. *)
Definition info_key (image_info : ImageInfo) : string * Z :=
  (channel image_info, z_layer image_info).

Definition last_tile (reads : list (ImageInfo * ndarray)) (c : string) (z : Z)
    : option ndarray :=
  snd <$> last (filter (λ p, info_key p.1 = (c, z)) reads).

(** ** Vocabulary of the statements about the preparation *)

Section prepare_spec.
Context `{FloatModel} `{FilterFactory}.

(** What the loop body computes for one input before it compares scales:
    the z-layers, the source images, the filtered images and the scale of
    every (source, filtered) pair. *)
Definition channel_batch (task : SegTask) (images : ImageSet) (input_info : InputData)
    : result (list Z * list ndarray * list ndarray * list Scale) :=
  z_stack ← getitem KStr images (image_channel input_info);
  let task_z := task_z_of task z_stack in
  task_images ← mapM (λ z, z_stack ← getitem KStr images (image_channel input_info);
                           getitem KInt z_stack z) task_z;
  if bool_decide (length task_z = 0%nat) then
    Raise (ValueError (no_channel_images_msg (image_channel input_info) (task_id task)))
  else
    filtered_images ← create_filter_by_sequence (image_preprocessing input_info) task_images;
    cur_scale ← mapM image_scale (zip task_images filtered_images);
    Ok (task_z, task_images, filtered_images, cur_scale).

(** The z-stack of a channel restricted to the z-layers of the task. *)
Definition restrict_z (task : SegTask) (z_stack : gmap Z ndarray) : gmap Z ndarray :=
  filter (λ kv, kv.1 ∈ z_layers task) z_stack.

(** An input that the identity pipeline can process: its pipeline returns
    the images it is given, its channel is in the image set with at least one
    z-layer of the task, and the images of these z-layers have at least two
    axes, the first two of non-zero length. *)
Definition identity_ready (task : SegTask) (images : ImageSet) (input_info : InputData)
    : Prop :=
  (∀ l, create_filter_by_sequence (image_preprocessing input_info) l = Ok l)
  ∧ ∃ z_stack,
      images !! image_channel input_info = Some z_stack
      ∧ dom z_stack ∩ z_layers task ≠ ∅
      ∧ ∀ z im, z_stack !! z = Some im → z ∈ z_layers task →
          ∃ h w rest, shape im = h :: w :: rest ∧ h ≠ 0 ∧ w ≠ 0.

End prepare_spec.

(** ** read_tile *)

Section read_tile_facts.
Context `{RasterStore}.
Implicit Types (window : Window) (path : string) (st : state).

Lemma read_tile_loop_cons window path num_tries num_retries try_number rest st :
  read_tile_loop window path num_tries num_retries (try_number :: rest) st =
  match raster_read path window (world st) with
  | (ReadOk image, w) => (Ok (np_squeeze image), State w (stdout st))
  | (ReadOSError, w) =>
      read_tile_loop window path num_tries num_retries rest
        (State w (stdout st ++
           if bool_decide (try_number + 1 ≤ num_tries)
           then [retry_msg path window try_number num_retries] else []))
  | (ReadFatal name, w) => (Raise (ExternalError name), State w (stdout st))
  end.
Proof.
  simpl. unfold mbind, M_bind, attempt.
  destruct (raster_read path window (world st)) as [[image| |name] w]; simpl; try done.
  case_bool_decide; simpl; [done|]. by rewrite app_nil_r.
Qed.

Lemma read_tile_loop_success window path num_tries num_retries tries :
  ∀ st k image,
    (k < length tries)%nat →
    attempt_outcomes path window (S k) (world st) = replicate k ReadOSError ++ [ReadOk image] →
    (read_tile_loop window path num_tries num_retries tries st).1 = Ok (np_squeeze image).
Proof.
  induction tries as [|t rest IH]; intros st k image Hk Hout; [simpl in Hk; lia|].
  rewrite read_tile_loop_cons. simpl in Hout.
  destruct (raster_read path window (world st)) as [o w].
  destruct k as [|k]; simpl in Hout.
  - by injection Hout as ->.
  - injection Hout as -> Hout. apply (IH _ k); [simpl in Hk; lia|].
    simpl. by destruct (raster_read path window w).
Qed.

Lemma read_tile_loop_exhausted window path num_tries num_retries tries :
  ∀ st msg,
    (read_tile_loop window path num_tries num_retries tries st).1 = Raise (OSError msg) ↔
    attempt_outcomes path window (length tries) (world st) = replicate (length tries) ReadOSError
    ∧ msg = read_failed_msg path window.
Proof.
  induction tries as [|t rest IH]; intros st msg.
  - simpl. split; [intros [= <-]; done | intros [_ ->]; done].
  - rewrite read_tile_loop_cons. simpl.
    destruct (raster_read path window (world st)) as [[image| |name] w]; simpl.
    + split; [done | intros [[=] _]].
    + rewrite IH. simpl. split; intros [E ->]; split; try done; congruence.
    + split; [done | intros [[=] _]].
Qed.

Lemma read_tile_loop_stdout window path num_tries num_retries tries :
  ∀ st,
    stdout (read_tile_loop window path num_tries num_retries tries st).2 =
    stdout st ++
      ((λ i, retry_msg path window i num_retries) <$>
        filter (λ i, i + 1 ≤ num_tries)
          (take (leading_failures path window (length tries) (world st)) tries)).
Proof.
  induction tries as [|t rest IH]; intros st.
  - simpl. by rewrite app_nil_r.
  - rewrite read_tile_loop_cons. simpl.
    destruct (raster_read path window (world st)) as [[image| |name] w]; simpl.
    + by rewrite app_nil_r.
    + rewrite IH. simpl. rewrite filter_cons.
      case_bool_decide; case_decide; try done; simpl.
      * by rewrite <- app_assoc.
      * by rewrite app_nil_r.
    + by rewrite app_nil_r.
Qed.

Lemma leading_failures_le path window n : ∀ w, (leading_failures path window n w ≤ n)%nat.
Proof.
  induction n as [|n IH]; intros w; simpl; [done|].
  destruct (raster_read path window w) as [[| |] w']; try lia. specialize (IH w'). lia.
Qed.

Lemma retry_numbers num_tries (f : nat) :
  Z.of_nat f ≤ num_tries →
  filter (λ i, i + 1 ≤ num_tries) (take f (seqZ 1 num_tries)) =
  seqZ 1 (Z.min (Z.of_nat f) (num_tries - 1)).
Proof.
  intros Hf. induction f as [|f IH].
  - rewrite take_0. simpl. by rewrite seqZ_nil by lia.
  - assert (seqZ 1 num_tries !! f = Some (1 + Z.of_nat f)) as Hf'
      by (apply lookup_seqZ_lt; lia).
    rewrite (take_S_r _ _ _ Hf'), filter_app, IH by lia.
    rewrite filter_cons, filter_nil. case_decide.
    + replace (Z.min (Z.of_nat (S f)) (num_tries - 1)) with (Z.of_nat (S f)) by lia.
      replace (Z.min (Z.of_nat f) (num_tries - 1)) with (Z.of_nat f) by lia.
      by rewrite seqZ_S.
    + rewrite app_nil_r. f_equal. lia.
Qed.

End read_tile_facts.

(** ** get_segmentation_images *)

Section assembly_facts.
Context `{RasterStore}.
Implicit Types (images : ImageSet) (st : state).

(** One iteration stores the tile under its key, in a new z-stack when the
    channel has none (or an empty one). *)
Lemma get_segmentation_images_loop_cons image_info rest window_info images st :
  get_segmentation_images_loop (image_info :: rest) window_info images st =
  match read_tile window_info (full_path image_info) 5 st with
  | (Ok tile, st') =>
      get_segmentation_images_loop rest window_info
        (<[channel image_info :=
             <[z_layer image_info := tile]> (default ∅ (images !! channel image_info))]> images)
        st'
  | (Raise e, st') => (Raise e, st')
  end.
Proof.
  simpl. unfold mbind at 1, M_bind at 1.
  destruct (read_tile window_info (full_path image_info) 5 st) as [[tile|e] st']; [|done].
  unfold mbind at 1, M_bind at 1, lift, getitem.
  destruct (images !! channel image_info) as [d|] eqn:E; simpl.
  - case_bool_decide as Hd; simpl.
    + subst d. rewrite lookup_insert_eq. by rewrite insert_insert_eq.
    + by rewrite E.
  - rewrite lookup_insert_eq. by rewrite insert_insert_eq.
Qed.

Lemma read_all_cons image_info rest window_info st :
  read_all (image_info :: rest) window_info st =
  match read_tile window_info (full_path image_info) 5 st with
  | (Ok tile, st1) =>
      match read_all rest window_info st1 with
      | (Ok tiles, st2) => (Ok (tile :: tiles), st2)
      | (Raise e, st2) => (Raise e, st2)
      end
  | (Raise e, st1) => (Raise e, st1)
  end.
Proof.
  unfold read_all. simpl. unfold mbind at 1, M_bind at 1.
  destruct (read_tile window_info (full_path image_info) 5 st) as [[tile|e] st1]; [|done].
  unfold mbind at 1, M_bind at 1.
  by destruct (mapM (M:=M) _ rest st1) as [[tiles|e] st2].
Qed.

Lemma read_all_length images_info window_info :
  ∀ st tiles st', read_all images_info window_info st = (Ok tiles, st') →
                  length tiles = length images_info.
Proof.
  induction images_info as [|i rest IH]; intros st tiles st'.
  - by intros [= <- _].
  - rewrite read_all_cons.
    destruct (read_tile _ _ _ st) as [[tile|e] st1]; [|done].
    destruct (read_all rest window_info st1) as [[ts|e] st2] eqn:E; [|done].
    intros [= <- _]. simpl. f_equal. by eapply IH.
Qed.

Lemma lookup2_store images c z tile c' z' :
  lookup2 (<[c := <[z := tile]> (default ∅ (images !! c))]> images) c' z' =
  if decide ((c, z) = (c', z')) then Some tile else lookup2 images c' z'.
Proof.
  unfold lookup2. case_decide as E.
  - injection E as <- <-. rewrite lookup_insert_eq. simpl. by rewrite lookup_insert_eq.
  - destruct (decide (c = c')) as [<-|Hc].
    + rewrite lookup_insert_eq. simpl. rewrite lookup_insert_ne by congruence.
      by destruct (images !! c).
    + by rewrite lookup_insert_ne.
Qed.

Lemma last_tile_cons image_info tile reads c z :
  last_tile ((image_info, tile) :: reads) c z =
  match last_tile reads c z with
  | Some t => Some t
  | None => if decide (info_key image_info = (c, z)) then Some tile else None
  end.
Proof.
  unfold last_tile. rewrite filter_cons. simpl. case_decide.
  - rewrite last_cons. by destruct (last (filter _ reads)).
  - by destruct (last (filter _ reads)).
Qed.

Lemma get_segmentation_images_loop_spec images_info window_info :
  ∀ images st tiles st',
    read_all images_info window_info st = (Ok tiles, st') →
    ∃ result_images,
      get_segmentation_images_loop images_info window_info images st = (Ok result_images, st')
      ∧ ∀ c z, lookup2 result_images c z =
               match last_tile (zip images_info tiles) c z with
               | Some t => Some t
               | None => lookup2 images c z
               end.
Proof.
  induction images_info as [|i rest IH]; intros images st tiles st'.
  - intros [= <- <-]. exists images. split; [done|]. by intros c z.
  - rewrite read_all_cons, get_segmentation_images_loop_cons.
    destruct (read_tile _ _ _ st) as [[tile|e] st1]; [|done].
    destruct (read_all rest window_info st1) as [[ts|e] st2] eqn:E; [|done].
    intros [= <- <-].
    destruct (IH (<[channel i := <[z_layer i := tile]> (default ∅ (images !! channel i))]> images)
                 st1 ts st2 E) as (res & Hrun & Hres).
    exists res. split; [done|]. intros c z. rewrite Hres. simpl.
    rewrite last_tile_cons, lookup2_store. unfold info_key.
    destruct (last_tile (zip rest ts) c z); [done|]. by case_decide.
Qed.

(** A tile that cannot be read aborts the assembly with the reader's error. *)
Lemma get_segmentation_images_loop_abort before image_info after window_info e :
  ∀ images st tiles st1 st2,
    read_all before window_info st = (Ok tiles, st1) →
    read_tile window_info (full_path image_info) 5 st1 = (Raise e, st2) →
    get_segmentation_images_loop (before ++ image_info :: after) window_info images st
    = (Raise e, st2).
Proof.
  induction before as [|i rest IH]; intros images st tiles st1 st2.
  - intros [= _ <-] Hread. simpl app. rewrite get_segmentation_images_loop_cons.
    by rewrite Hread.
  - rewrite read_all_cons. simpl app. rewrite get_segmentation_images_loop_cons.
    destruct (read_tile _ _ _ st) as [[tile|e'] st'] ; [|done].
    destruct (read_all rest window_info st') as [[ts|e'] st''] eqn:E; [|done].
    intros [= _ <-] Hread. by eapply IH.
Qed.

Lemma elem_of_key_pairs images c z :
  (c, z) ∈ key_pairs images ↔ is_Some (lookup2 images c z).
Proof. unfold key_pairs, lookup2. by rewrite elem_of_dom, lookup_map_uncurry. Qed.

Lemma last_tile_is_Some images_info tiles c z :
  length tiles = length images_info →
  is_Some (last_tile (zip images_info tiles) c z) ↔ (c, z) ∈ info_key <$> images_info.
Proof.
  revert tiles. induction images_info as [|i rest IH]; intros [|t ts] Hlen; simplify_eq/=.
  - split; [by intros [? ?] | by intros ?%elem_of_nil].
  - rewrite last_tile_cons, elem_of_cons, <- (IH ts) by done.
    destruct (last_tile (zip rest ts) c z) as [t'|].
    + split; [intros _; right; by eexists | by eexists].
    + case_decide as Hk.
      * split; [intros _; by left | by eexists].
      * split; [by intros [? ?] | intros [?|[? ?]]; done].
Qed.

End assembly_facts.

(** ** The error monad *)

Section result_facts.
Context {A B : Type}.
Implicit Types (f : A → result B) (l : list A).

Lemma mapM_result_Ok f l ys :
  mapM f l = Ok ys → Forall2 (λ x y, f x = Ok y) l ys.
Proof.
  revert ys. induction l as [|x l IH]; intros ys; simpl.
  - intros [= <-]. constructor.
  - unfold mbind at 1, result_bind at 1. destruct (f x) as [y|e] eqn:Ex; [|done].
    unfold mbind at 1, result_bind at 1. destruct (mapM f l) as [k|e]; [|done].
    intros [= <-]. constructor; auto.
Qed.

Lemma mapM_result_Raise f l e :
  mapM f l = Raise e → ∃ x, x ∈ l ∧ f x = Raise e.
Proof.
  induction l as [|x l IH]; simpl; [done|].
  unfold mbind at 1, result_bind at 1. destruct (f x) as [y|e'] eqn:Ex.
  - unfold mbind at 1, result_bind at 1. destruct (mapM f l) as [k|e'']; [done|].
    intros [= ->]. destruct IH as (x' & ? & ?); [done|]. exists x'. split; [by right|done].
  - intros [= ->]. exists x. split; [by left|done].
Qed.

Lemma mapM_result_Forall2 f l ys :
  Forall2 (λ x y, f x = Ok y) l ys → mapM f l = Ok ys.
Proof.
  induction 1 as [|x y l ys Hx _ IH]; simpl; [done|].
  unfold mbind at 1, result_bind at 1. rewrite Hx.
  unfold mbind at 1, result_bind at 1. by rewrite IH.
Qed.

Lemma mapM_result_total f l :
  (∀ x, x ∈ l → is_ok (f x) = true) → ∃ ys, mapM f l = Ok ys.
Proof.
  intros Hok. destruct (mapM f l) as [ys|e] eqn:E; [by eexists|].
  apply mapM_result_Raise in E as (x & Hx & Ex). specialize (Hok x Hx).
  by rewrite Ex in Hok.
Qed.

End result_facts.

(** ** Comparison of scales *)

Section scale_order.
Context `{FloatModel} `{FilterFactory}.
Implicit Types (a b c : Scale) (l : list Scale).

Lemma scale_gt_lt a b : scale_gt a b = scale_lt b a.
Proof.
  unfold scale_gt, scale_lt. repeat case_bool_decide; congruence.
Qed.

Lemma scale_lt_irrefl a : scale_lt a a = false.
Proof. unfold scale_lt. by repeat case_bool_decide. Qed.

Lemma scale_lt_trans a b c :
  scale_lt a b = true → scale_lt b c = true → scale_lt a c = true.
Proof.
  destruct a as [a1 a2], b as [b1 b2], c as [c1 c2]. unfold scale_lt. simpl.
  repeat case_bool_decide; subst; try done;
    try (intros; by eapply float_ltb_trans);
    try (intros E1 E2; pose proof (float_ltb_trans _ _ _ E1 E2) as E3;
         by rewrite float_ltb_irrefl in E3).
Qed.

Lemma scale_lt_total a b : a ≠ b → scale_lt a b = true ∨ scale_lt b a = true.
Proof.
  destruct a as [a1 a2], b as [b1 b2]. unfold scale_lt. simpl. intros Hne.
  destruct (decide (a1 = b1)) as [->|H1].
  - rewrite !bool_decide_eq_false_2 by (intros ?; done).
    assert (a2 ≠ b2) by congruence.
    rewrite !bool_decide_eq_true_2 by done. by apply float_ltb_total.
  - rewrite !bool_decide_eq_true_2 by done. by apply float_ltb_total.
Qed.

Lemma scale_lt_asym a b : scale_lt a b = true → scale_lt b a = false.
Proof.
  intros E. destruct (scale_lt b a) eqn:E'; [|done].
  pose proof (scale_lt_trans _ _ _ E E') as E''. by rewrite scale_lt_irrefl in E''.
Qed.

(** [a <= b] as the negation of [b < a]. *)
Lemma scale_le_trans a b c :
  scale_lt b a = false → scale_lt c b = false → scale_lt c a = false.
Proof.
  intros Hab Hbc. destruct (scale_lt c a) eqn:E; [|done].
  destruct (decide (a = b)) as [->|Hne1]; [congruence|].
  destruct (decide (b = c)) as [->|Hne2]; [congruence|].
  destruct (scale_lt_total a b Hne1) as [E1|E1]; [|congruence].
  destruct (scale_lt_total b c Hne2) as [E2|E2]; [|congruence].
  pose proof (scale_lt_trans _ _ _ E1 E2) as E3.
  pose proof (scale_lt_trans _ _ _ E3 E) as E4. by rewrite scale_lt_irrefl in E4.
Qed.

Lemma fold_min_lower l : ∀ x,
  let m := fold_left (λ m item, if scale_lt item m then item else m) l x in
  m ∈ x :: l ∧ ∀ y, y ∈ x :: l → scale_lt y m = false.
Proof.
  induction l as [|i l IH]; intros x; simpl.
  - split; [by left|]. intros y ->%list_elem_of_singleton. apply scale_lt_irrefl.
  - destruct (scale_lt i x) eqn:E.
    + destruct (IH i) as [Hin Hlow]. split.
      * right. apply Hin.
      * intros y [->|Hy]%elem_of_cons; [|by apply Hlow].
        apply (scale_le_trans _ i); [by apply Hlow; left|by apply scale_lt_asym].
    + destruct (IH x) as [Hin Hlow]. split.
      * apply elem_of_cons in Hin as [->|Hin]; [by left|by right; right].
      * intros y [->|[->|Hy]%elem_of_cons]%elem_of_cons.
        -- apply Hlow. by left.
        -- apply (scale_le_trans _ x); [by apply Hlow; left|done].
        -- apply Hlow. by right.
Qed.

Lemma fold_max_upper l : ∀ x,
  let m := fold_left (λ m item, if scale_gt item m then item else m) l x in
  m ∈ x :: l ∧ ∀ y, y ∈ x :: l → scale_lt m y = false.
Proof.
  induction l as [|i l IH]; intros x; simpl.
  - split; [by left|]. intros y ->%list_elem_of_singleton. apply scale_lt_irrefl.
  - rewrite scale_gt_lt. destruct (scale_lt x i) eqn:E.
    + destruct (IH i) as [Hin Hup]. split.
      * right. apply Hin.
      * intros y [->|Hy]%elem_of_cons; [|by apply Hup].
        apply (scale_le_trans _ i); [by apply scale_lt_asym|by apply Hup; left].
    + destruct (IH x) as [Hin Hup]. split.
      * apply elem_of_cons in Hin as [->|Hin]; [by left|by right; right].
      * intros y [->|[->|Hy]%elem_of_cons]%elem_of_cons.
        -- apply Hup. by left.
        -- apply (scale_le_trans _ x); [done|by apply Hup; left].
        -- apply Hup. by right.
Qed.

(** [min(l) == max(l)] holds exactly when all the items of [l] are one
    value. *)
Lemma py_min_max_eq l lo hi :
  py_min l = Ok lo → py_max l = Ok hi → lo = hi → ∀ y, y ∈ l → y = lo.
Proof.
  destruct l as [|x l]; [done|]. simpl. intros [= <-] [= <-] Heq y Hy.
  destruct (fold_min_lower l x) as [_ Hlow].
  destruct (fold_max_upper l x) as [_ Hup]. simpl in *.
  specialize (Hlow y Hy). specialize (Hup y Hy). rewrite <- Heq in Hup.
  destruct (decide (y = fold_left (λ m item, if scale_lt item m then item else m) l x))
    as [?|Hne]; [done|].
  destruct (scale_lt_total _ _ Hne); congruence.
Qed.

Lemma py_min_elem l lo : py_min l = Ok lo → lo ∈ l.
Proof.
  destruct l as [|x l]; [done|]. simpl. intros [= <-]. apply (fold_min_lower l x).
Qed.

Lemma py_max_elem l hi : py_max l = Ok hi → hi ∈ l.
Proof.
  destruct l as [|x l]; [done|]. simpl. intros [= <-]. apply (fold_max_upper l x).
Qed.

Lemma py_min_is_ok l : l ≠ [] → ∃ lo, py_min l = Ok lo.
Proof. destruct l; [done|]. by eexists. Qed.

Lemma py_max_is_ok l : l ≠ [] → ∃ hi, py_max l = Ok hi.
Proof. destruct l; [done|]. by eexists. Qed.

End scale_order.

(** ** get_prepared_images *)

Section prepare_facts.
Context `{FloatModel} `{FilterFactory}.
Implicit Types (task : SegTask) (images cur_images : ImageSet) (scale : option Scale).

Lemma image_scale_Ok im cur_im s :
  image_scale (im, cur_im) = Ok s ↔
  ∃ h w cur_h cur_w,
    shape im !! 0%nat = Some h ∧ shape im !! 1%nat = Some w ∧
    shape cur_im !! 0%nat = Some cur_h ∧ shape cur_im !! 1%nat = Some cur_w ∧
    cur_h ≠ 0 ∧ cur_w ≠ 0 ∧ s = (truediv h cur_h, truediv w cur_w).
Proof.
  unfold image_scale, shape_getitem, py_truediv, mbind, result_bind.
  destruct (shape im !! 0%nat) as [h|]; [|naive_solver].
  destruct (shape cur_im !! 0%nat) as [cur_h|]; [|naive_solver].
  case_bool_decide; [naive_solver|].
  destruct (shape im !! 1%nat) as [w|]; [|naive_solver].
  destruct (shape cur_im !! 1%nat) as [cur_w|]; [|naive_solver].
  case_bool_decide; naive_solver.
Qed.

Lemma task_z_of_elem task (z_stack : gmap Z ndarray) z :
  z ∈ task_z_of task z_stack ↔ is_Some (z_stack !! z) ∧ z ∈ z_layers task.
Proof.
  unfold task_z_of. rewrite merge_sort_Permutation, list_elem_of_filter, list_elem_of_fmap.
  split.
  - intros [Hz ([k v] & -> & Hkv)]. apply elem_of_map_to_list in Hkv. by eauto.
  - intros [[v Hv] Hz]. split; [done|]. exists (z, v). split; [done|].
    by apply elem_of_map_to_list.
Qed.

Lemma task_z_of_NoDup task (z_stack : gmap Z ndarray) : NoDup (task_z_of task z_stack).
Proof.
  unfold task_z_of. rewrite merge_sort_Permutation.
  apply NoDup_filter, NoDup_fst_map_to_list.
Qed.

Lemma task_z_of_sorted task (z_stack : gmap Z ndarray) :
  StronglySorted Z.lt (task_z_of task z_stack).
Proof.
  pose proof (task_z_of_NoDup task z_stack) as Hnd.
  assert (StronglySorted Z.le (task_z_of task z_stack)) as Hs.
  { unfold task_z_of. apply StronglySorted_merge_sort; apply _. }
  induction Hs as [|x l _ IH Hx]; [constructor|].
  apply NoDup_cons in Hnd as [Hx' Hnd]. constructor; [by apply IH|].
  rewrite Forall_forall in Hx |- *. intros y Hy. specialize (Hx y Hy).
  assert (x ≠ y) by (intros ->; done). lia.
Qed.

Lemma getitem_Ok {K V} `{Countable K} (key_of : K → pykey) (d : gmap K V) k v :
  getitem key_of d k = Ok v ↔ d !! k = Some v.
Proof. unfold getitem. destruct (d !! k); naive_solver. Qed.

Lemma task_images_Ok (r : result (gmap Z ndarray)) (z_stack : gmap Z ndarray)
    (task_z : list Z) :
  r = Ok z_stack →
  (∀ z, z ∈ task_z → is_Some (z_stack !! z)) →
  ∃ task_images,
    mapM (λ z, z_stack ← r; getitem KInt z_stack z) task_z = Ok task_images
    ∧ Forall2 (λ z im, z_stack !! z = Some im) task_z task_images.
Proof.
  intros -> Hz.
  destruct (mapM_result_total
              (λ z, z_stack ← Ok z_stack; getitem KInt z_stack z) task_z)
    as [task_images E].
  { intros z [v Hv]%Hz. unfold getitem, mbind, result_bind. by rewrite Hv. }
  exists task_images. split; [done|].
  apply mapM_result_Ok in E. eapply Forall2_impl; [exact E|].
  intros z im. unfold mbind, result_bind. by rewrite getitem_Ok.
Qed.

Lemma channel_batch_Ok task images input_info task_z task_images filtered_images cur_scale :
  channel_batch task images input_info
    = Ok (task_z, task_images, filtered_images, cur_scale) →
  ∃ z_stack,
    images !! image_channel input_info = Some z_stack
    ∧ task_z = task_z_of task z_stack
    ∧ task_z ≠ []
    ∧ Forall2 (λ z im, z_stack !! z = Some im) task_z task_images
    ∧ create_filter_by_sequence (image_preprocessing input_info) task_images
        = Ok filtered_images
    ∧ mapM image_scale (zip task_images filtered_images) = Ok cur_scale.
Proof.
  unfold channel_batch.
  destruct (getitem KStr images (image_channel input_info)) as [z_stack|e] eqn:Hc;
    [|done].
  apply getitem_Ok in Hc.
  unfold mbind at 1, result_bind at 1.
  destruct (task_images_Ok (Ok z_stack) z_stack (task_z_of task z_stack) eq_refl)
    as (ti & -> & Hti).
  { by intros z [? _]%task_z_of_elem. }
  unfold mbind at 1, result_bind at 1. case_bool_decide as Hlen; [done|].
  unfold mbind at 1, result_bind at 1.
  destruct (create_filter_by_sequence _ ti) as [fi|e] eqn:Hf; [|done].
  unfold mbind at 1, result_bind at 1.
  destruct (mapM image_scale (zip ti fi)) as [cs|e] eqn:Hs; [|done].
  intros [= <- <- <- <-]. exists z_stack. repeat split; try done.
  intros E. by rewrite E in Hlen.
Qed.

(** The loop body: the batch of the input, then the comparison of its scales
    and the bookkeeping. *)
Lemma prepare_input_batch task images cur_images scale input_info :
  prepare_input task images (cur_images, scale) input_info =
  match channel_batch task images input_info with
  | Raise e => Raise e
  | Ok (task_z, _, filtered_images, cur_scale) =>
      lo ← py_min cur_scale;
      hi ← py_max cur_scale;
      differs ← (if bool_decide (lo ≠ hi) then Ok true
                 else match scale with
                      | None => Ok false
                      | Some s => first ← list_getitem cur_scale 0;
                                  Ok (bool_decide (s ≠ first))
                      end);
      if differs : bool then Raise (ValueError scale_mismatch_msg)
      else
        first ← list_getitem cur_scale 0;
        z_dict ← dict_of_enumerate filtered_images 0 task_z ∅;
        Ok (<[image_channel input_info := z_dict]> cur_images, Some first)
  end.
Proof.
  unfold prepare_input, channel_batch, mbind, result_bind.
  destruct (getitem KStr images (image_channel input_info)) as [z_stack|e]; [|done].
  destruct (mapM _ (task_z_of task z_stack)) as [ti|e]; [|done].
  case_bool_decide; [done|].
  destruct (create_filter_by_sequence _ ti) as [fi|e]; [|done].
  by destruct (mapM image_scale (zip ti fi)) as [cs|e].
Qed.

Lemma prepare_input_uniform task images cur_images scale input_info
    task_z task_images filtered_images cur_scale first :
  channel_batch task images input_info
    = Ok (task_z, task_images, filtered_images, cur_scale) →
  cur_scale ≠ [] →
  (∀ y, y ∈ cur_scale → y = first) →
  scale = None ∨ scale = Some first →
  prepare_input task images (cur_images, scale) input_info =
  z_dict ← dict_of_enumerate filtered_images 0 task_z ∅;
  Ok (<[image_channel input_info := z_dict]> cur_images, Some first).
Proof.
  intros Hb Hne Hall Hs. rewrite prepare_input_batch, Hb.
  destruct (py_min_is_ok cur_scale Hne) as [lo Hlo].
  destruct (py_max_is_ok cur_scale Hne) as [hi Hhi].
  rewrite Hlo, Hhi.
  assert (lo = first) as -> by (by apply Hall, py_min_elem).
  assert (hi = first) as -> by (by apply Hall, py_max_elem).
  destruct cur_scale as [|c rest]; [done|].
  assert (c = first) as -> by (apply Hall; by left).
  unfold mbind, result_bind. rewrite bool_decide_eq_false_2 by (intros ?; done).
  unfold list_getitem. simpl.
  destruct Hs as [->| ->]; [done|].
  by rewrite bool_decide_eq_false_2 by (intros ?; done).
Qed.


Lemma prepare_input_Ok task images cur_images scale input_info cur_images' scale' :
  prepare_input task images (cur_images, scale) input_info = Ok (cur_images', scale') →
  ∃ task_z task_images filtered_images cur_scale first z_dict,
    channel_batch task images input_info
      = Ok (task_z, task_images, filtered_images, cur_scale)
    ∧ first ∈ cur_scale
    ∧ (∀ y, y ∈ cur_scale → y = first)
    ∧ (scale = None ∨ scale = Some first)
    ∧ scale' = Some first
    ∧ dict_of_enumerate filtered_images 0 task_z ∅ = Ok z_dict
    ∧ cur_images' = <[image_channel input_info := z_dict]> cur_images.
Proof.
  rewrite prepare_input_batch.
  destruct (channel_batch task images input_info) as [[[[tz ti] fi] cs]|e] eqn:Hb; [|done].
  destruct (py_min cs) as [lo|e] eqn:Hlo; [|done].
  destruct (py_max cs) as [hi|e] eqn:Hhi; [|done].
  unfold mbind, result_bind.
  case_bool_decide as Hlh; [done|].
  assert (lo = hi) as <- by (destruct (decide (lo = hi)); done).
  pose proof (py_min_max_eq cs lo lo Hlo Hhi eq_refl) as Hall.
  destruct cs as [|c rest]; [done|]. unfold list_getitem. simpl.
  assert (c = lo) as -> by (apply Hall; by left).
  destruct scale as [s|].
  - case_bool_decide as Hs; [done|].
    assert (s = lo) as -> by (destruct (decide (s = lo)); done).
    destruct (dict_of_enumerate fi 0 tz ∅) as [zd|e] eqn:Hd; [|done].
    intros [= <- <-]. exists tz, ti, fi, (lo :: rest), lo, zd.
    repeat split; try done; [by left | by right].
  - destruct (dict_of_enumerate fi 0 tz ∅) as [zd|e] eqn:Hd; [|done].
    intros [= <- <-]. exists tz, ti, fi, (lo :: rest), lo, zd.
    repeat split; try done; [by left | by left].
Qed.

Lemma prepare_loop_cons task images vars input_info rest :
  prepare_loop task images vars (input_info :: rest) =
  match prepare_input task images vars input_info with
  | Ok vars' => prepare_loop task images vars' rest
  | Raise e => Raise e
  end.
Proof. done. Qed.

Lemma prepare_loop_app task images inputs1 inputs2 : ∀ vars,
  prepare_loop task images vars (inputs1 ++ inputs2) =
  vars' ← prepare_loop task images vars inputs1;
  prepare_loop task images vars' inputs2.
Proof.
  induction inputs1 as [|i rest IH]; intros vars; [done|].
  rewrite <- app_comm_cons, !prepare_loop_cons.
  destruct (prepare_input task images vars i) as [vars'|e]; [|done].
  by rewrite IH.
Qed.

(** After the loop has run over some inputs without error, every scale of
    every one of these inputs is the value of the loop variable [scale]. *)
Lemma prepare_loop_Ok task images inputs : ∀ cur_images scale cur_images' scale',
  prepare_loop task images (cur_images, scale) inputs = Ok (cur_images', scale') →
  (∀ s, scale = Some s → scale' = Some s)
  ∧ (inputs = [] → scale' = scale)
  ∧ ∀ input_info, input_info ∈ inputs →
      ∃ task_z task_images filtered_images cur_scale,
        channel_batch task images input_info
          = Ok (task_z, task_images, filtered_images, cur_scale)
        ∧ cur_scale ≠ []
        ∧ ∀ y, y ∈ cur_scale → scale' = Some y.
Proof.
  induction inputs as [|i rest IH]; intros cur sc cur' sc'.
  - intros [= <- <-]. repeat split; try done. by intros ? ?%elem_of_nil.
  - rewrite prepare_loop_cons.
    destruct (prepare_input task images (cur, sc) i) as [[cur1 sc1]|e] eqn:Hi; [|done].
    intros Hrest. apply prepare_input_Ok in Hi
      as (tz & ti & fi & cs & first & zd & Hb & Hin & Hall & Hsc & -> & _ & _).
    destruct (IH _ _ _ _ Hrest) as (Hkeep & _ & Hrest').
    pose proof (Hkeep first eq_refl) as ->.
    repeat split; try done.
    + intros s ->. destruct Hsc as [?|[= ->]]; done.
    + intros info [->|Hinfo]%elem_of_cons; [|by apply Hrest'].
      exists tz, ti, fi, cs. repeat split; try done.
      * intros ->. by apply elem_of_nil in Hin.
      * intros y Hy. by rewrite (Hall y Hy).
Qed.


End prepare_facts.

(** ** Text *)

Section text_facts.
Implicit Types (s t : string) (c : Ascii.ascii).

Lemma string_all_app p s t :
  string_all p (s +:+ t) = string_all p s && string_all p t.
Proof. induction s as [|c s IH]; simpl; [done|]. by rewrite IH, andb_assoc. Qed.

Lemma pretty_N_go_all (x : N) : ∀ s,
  string_all is_int_char s = true → string_all is_int_char (pretty_N_go x s) = true.
Proof.
  induction (N.lt_wf_0 x) as [x _ IH]; intros s Hs.
  destruct (decide (x = 0)%N) as [->|Hx]; [by rewrite pretty_N_go_0|].
  rewrite pretty_N_go_step by lia. apply IH.
  - apply N.div_lt; lia.
  - simpl. rewrite Hs, andb_true_r.
    assert (x `mod` 10 < 10)%N as Hlt by (apply N.mod_lt; lia).
    unfold pretty_N_char. by repeat case_match.
Qed.

Lemma str_int_all z : string_all is_int_char (str_int z) = true.
Proof.
  unfold str_int, pretty, pretty_Z.
  destruct z as [|x|x]; [done| |]; unfold pretty, pretty_positive, pretty, pretty_N.
  - destruct (decide (N.pos x = 0%N)); [done|]. by apply pretty_N_go_all.
  - simpl. destruct (decide (N.pos x = 0%N)); [done|]. by apply pretty_N_go_all.
Qed.

(** A text cut at a separator that occurs in neither left part is cut in one
    way only. *)
Lemma separator_split p c s1 s2 t1 t2 :
  p c = false →
  string_all p s1 = true → string_all p s2 = true →
  s1 +:+ String c t1 = s2 +:+ String c t2 → s1 = s2 ∧ t1 = t2.
Proof.
  intros Hc. revert s2. induction s1 as [|a s1 IH]; intros [|b s2]; simpl.
  - by intros _ _ [= ->].
  - intros _ [Hb _]%andb_true_iff [= <- _]. congruence.
  - intros [Ha _]%andb_true_iff _ [= -> _]. congruence.
  - intros [_ H1]%andb_true_iff [_ H2]%andb_true_iff [= -> E].
    destruct (IH s2 H1 H2 E) as [-> ->]. done.
Qed.

(** The retry message determines the two counters it shows. *)
Lemma retry_msg_counters path window i n i' n' :
  retry_msg path window i n = retry_msg path window i' n' → i = i' ∧ n = n'.
Proof.
  unfold retry_msg. intros E.
  repeat apply (inj (String.append _)) in E.
  apply (separator_split is_int_char "/") in E as [Ei E];
    [|done|apply str_int_all..].
  apply (separator_split is_int_char ".") in E as [En _];
    [|done|apply str_int_all..].
  split; by apply (inj pretty).
Qed.

End text_facts.

(** ** The tile reader *)

(** C2.  With at least one try allowed, [read_tile] returns the squeezed band
    of the first attempt that succeeds whenever that attempt is one of the
    first [num_tries] and all the attempts before it failed with an
    [OSError], however many they are.  It raises an [IOError] exactly when
    all [num_tries] attempts failed with an [OSError], and the message is
    then "Failed to read <path> at <window>".  The error is not caught by the
    assembly: [get_segmentation_images] ends with the very error of the
    reader. *)
Theorem read_tile_first_success `{RasterStore} (window : Window) (path : string)
    (num_tries : Z) (st : state) :
  1 ≤ num_tries →
  (∀ (k : nat) image,
      (k < Z.to_nat num_tries)%nat →
      attempt_outcomes path window (S k) (world st)
        = replicate k ReadOSError ++ [ReadOk image] →
      (read_tile window path num_tries st).1 = Ok (np_squeeze image))
  ∧ (∀ msg,
      (read_tile window path num_tries st).1 = Raise (OSError msg) ↔
      attempt_outcomes path window (Z.to_nat num_tries) (world st)
        = replicate (Z.to_nat num_tries) ReadOSError
      ∧ msg = "Failed to read " +:+ path +:+ " at " +:+ str_window window)
  ∧ (∀ before image_info after tiles st1 st2 e,
      read_all before window st = (Ok tiles, st1) →
      read_tile window (full_path image_info) 5 st1 = (Raise e, st2) →
      get_segmentation_images (before ++ image_info :: after) window st = (Raise e, st2)).
Proof.
  intros Hn. unfold read_tile.
  assert (length (seqZ 1 num_tries) = Z.to_nat num_tries) as Hlen by apply length_seqZ.
  split; [|split].
  - intros k image Hk Hout. eapply read_tile_loop_success; [|done]. by rewrite Hlen.
  - intros msg. rewrite read_tile_loop_exhausted, Hlen. done.
  - intros before image_info after tiles st1 st2 e Hall Hread.
    by eapply get_segmentation_images_loop_abort.
Qed.

(** The first attempt fails, the second succeeds, three tries are allowed. *)
Lemma read_tile_first_success_witness :
  1 ≤ 3
  ∧ (read_tile (0, 0, 2, 2) "a.tif" 3 (@State scripted_store [ReadOSError; ReadOk img22] [])).1
    = Ok (np_squeeze img22).
Proof.
  split; [lia|].
  apply (proj1 (read_tile_first_success (0, 0, 2, 2) "a.tif" 3
                  (@State scripted_store [ReadOSError; ReadOk img22] []) ltac:(lia)) 1%nat img22).
  - vm_compute. lia.
  - reflexivity.
Defined.

(** C7.  Every attempt that fails with an [OSError] and is not the last one
    allowed prints one line, the retry message with the number of that
    attempt and with [num_tries - 1]; when the last attempt fails nothing is
    printed for it.  The line shows the path and the window, and it
    determines the two counters it shows, hence how many retries are left. *)
Theorem read_tile_retry_messages `{RasterStore} (window : Window) (path : string)
    (num_tries : Z) (st : state) :
  1 ≤ num_tries →
  let failures := leading_failures path window (Z.to_nat num_tries) (world st) in
  stdout (read_tile window path num_tries st).2
    = stdout st ++
        ((λ try_number, retry_msg path window try_number (num_tries - 1))
           <$> seqZ 1 (Z.min (Z.of_nat failures) (num_tries - 1)))
  ∧ (∀ try_number num_retries,
       retry_msg path window try_number num_retries
       = "Failed to read " +:+ path +:+ " at " +:+ str_window window +:+ ". Retrying "
           +:+ str_int try_number +:+ "/" +:+ str_int num_retries +:+ ".")
  ∧ (∀ i n i' n',
       retry_msg path window i n = retry_msg path window i' n' → i = i' ∧ n = n').
Proof.
  intros Hn failures. split; [|split].
  - unfold read_tile. rewrite read_tile_loop_stdout, length_seqZ.
    fold failures. rewrite retry_numbers; [done|].
    pose proof (leading_failures_le path window (Z.to_nat num_tries) (world st)).
    unfold failures. lia.
  - done.
  - apply retry_msg_counters.
Qed.

(** All three tries fail: two lines are printed, none for the last try. *)
Lemma read_tile_retry_messages_witness :
  1 ≤ 3
  ∧ stdout (read_tile (0, 0, 2, 2) "a.tif" 3
              (@State scripted_store [ReadOSError; ReadOSError; ReadOSError] [])).2
    = ["Failed to read a.tif at (0, 0, 2, 2). Retrying 1/2.";
       "Failed to read a.tif at (0, 0, 2, 2). Retrying 2/2."].
Proof.
  split; [lia|].
  rewrite (proj1 (read_tile_retry_messages (0, 0, 2, 2) "a.tif" 3
                    (@State scripted_store [ReadOSError; ReadOSError; ReadOSError] []) ltac:(lia))).
  reflexivity.
Defined.

(** C9.  With [num_tries <= 0] the loop body never runs: no attempt is made,
    nothing is printed, and the [IOError] naming the path and the window is
    raised. *)
Theorem read_tile_no_tries `{RasterStore} (window : Window) (path : string)
    (num_tries : Z) (st : state) :
  num_tries ≤ 0 →
  read_tile window path num_tries st
  = (Raise (OSError ("Failed to read " +:+ path +:+ " at " +:+ str_window window)), st).
Proof. intros Hn. unfold read_tile. by rewrite seqZ_nil. Qed.

Lemma read_tile_no_tries_witness :
  0 ≤ 0
  ∧ read_tile (0, 0, 2, 2) "a.tif" 0 (@State scripted_store [ReadOk img22] [])
    = (Raise (OSError "Failed to read a.tif at (0, 0, 2, 2)"), @State scripted_store [ReadOk img22] []).
Proof.
  split; [lia|].
  apply (read_tile_no_tries (0, 0, 2, 2) "a.tif" 0 (@State scripted_store [ReadOk img22] [])). lia.
Defined.

(** ** The assembler *)

Lemma filter_none {A} (P : A → Prop) `{∀ x, Decision (P x)} (l : list A) :
  (∀ x, x ∈ l → ¬ P x) → filter P l = [].
Proof.
  induction l as [|x l IH]; intros Hl; [done|].
  rewrite filter_cons_False by (apply Hl; by left).
  apply IH. intros y Hy. apply Hl. by right.
Qed.

(** The tile stored under the key of a descriptor that no later descriptor
    repeats is the tile of that descriptor, whatever came before. *)
Lemma last_tile_unrepeated before image_info after tiles_before tile tiles_after :
  length tiles_before = length before →
  info_key image_info ∉ info_key <$> after →
  last_tile (zip (before ++ image_info :: after) (tiles_before ++ tile :: tiles_after))
    (channel image_info) (z_layer image_info) = Some tile.
Proof.
  intros Hlen Hafter. unfold last_tile.
  rewrite (zip_with_app pair before (image_info :: after) tiles_before (tile :: tiles_after))
    by done.
  simpl.
  rewrite filter_app, filter_cons_True by done.
  assert (filter (λ p : ImageInfo * ndarray, info_key p.1 = (channel image_info, z_layer image_info))
            (zip_with pair after tiles_after) = []) as ->.
  { apply filter_none. intros [i t] Hin Hkey. simpl in Hkey. apply Hafter.
    apply list_elem_of_fmap. exists i. split; [done|]. by eapply elem_of_zip_l. }
  by rewrite last_snoc.
Qed.

(** C4.  When every tile can be read, [get_segmentation_images] returns an
    image set whose (channel, z-layer) keys are exactly the keys of the
    descriptors, and under every key the tile read for the last descriptor
    with that key: a descriptor that repeats the key of an earlier one
    replaces its tile, and no error is raised. *)
Theorem get_segmentation_images_keys `{RasterStore} (images_info : list ImageInfo)
    (window_info : Window) (st st' : state) (tiles : list ndarray) :
  read_all images_info window_info st = (Ok tiles, st') →
  ∃ images : ImageSet,
    get_segmentation_images images_info window_info st = (Ok images, st')
    ∧ key_pairs images = list_to_set (info_key <$> images_info)
    ∧ (∀ c z, lookup2 images c z = last_tile (zip images_info tiles) c z)
    ∧ (∀ before image_info after tiles_before tile tiles_after,
         images_info = before ++ image_info :: after →
         tiles = tiles_before ++ tile :: tiles_after →
         length tiles_before = length before →
         info_key image_info ∉ info_key <$> after →
         lookup2 images (channel image_info) (z_layer image_info) = Some tile).
Proof.
  intros Hall.
  destruct (get_segmentation_images_loop_spec images_info window_info ∅ st tiles st' Hall)
    as (images & Hrun & Hlook).
  assert (∀ c z, lookup2 images c z = last_tile (zip images_info tiles) c z) as Hlook'.
  { intros c z. rewrite Hlook. destruct (last_tile _ c z); [done|].
    unfold lookup2. by rewrite lookup_empty. }
  exists images. split; [done|]. split; [|split; [done|]].
  - apply set_eq. intros [c z].
    rewrite elem_of_key_pairs, Hlook', elem_of_list_to_set.
    apply last_tile_is_Some. by eapply read_all_length.
  - intros before image_info after tiles_before tile tiles_after -> -> Hlen Hafter.
    rewrite Hlook'. by apply last_tile_unrepeated.
Qed.

(** Two descriptors with the key ("DAPI", 0) and one with ("DAPI", 1): the
    second tile of ("DAPI", 0) is the one that is kept. *)
Lemma get_segmentation_images_keys_witness :
  ∃ images : ImageSet,
    get_segmentation_images
      [mkImageInfo "DAPI" 0 "a.tif"; mkImageInfo "DAPI" 1 "b.tif"; mkImageInfo "DAPI" 0 "c.tif"]
      (0, 0, 2, 2)
      (@State scripted_store [ReadOk img22; ReadOSError; ReadOk img22; ReadOk img44] [])
    = (Ok images,
       @State scripted_store [] ["Failed to read b.tif at (0, 0, 2, 2). Retrying 1/4."])
    ∧ key_pairs images = {[("DAPI", 0); ("DAPI", 1)]}
    ∧ lookup2 images "DAPI" 0 = Some img44.
Proof.
  destruct (get_segmentation_images_keys
              [mkImageInfo "DAPI" 0 "a.tif"; mkImageInfo "DAPI" 1 "b.tif";
               mkImageInfo "DAPI" 0 "c.tif"]
              (0, 0, 2, 2)
              (@State scripted_store [ReadOk img22; ReadOSError; ReadOk img22; ReadOk img44] [])
              (@State scripted_store [] ["Failed to read b.tif at (0, 0, 2, 2). Retrying 1/4."])
              [img22; img22; img44] eq_refl)
    as (images & Hrun & Hkeys & Hlook & _).
  exists images. split; [exact Hrun|]. split.
  - rewrite Hkeys. apply set_eq. intros [c z]. set_solver.
  - rewrite Hlook. reflexivity.
Defined.

(** ** The prepared image builder *)



Section prepare_errors.
Context `{FloatModel} `{FilterFactory}.
Implicit Types (task : SegTask) (images : ImageSet).

Lemma channel_batch_missing task images input_info :
  images !! image_channel input_info = None →
  channel_batch task images input_info
  = Raise (KeyError (KStr (image_channel input_info))).
Proof. intros Hc. unfold channel_batch, getitem. by rewrite Hc. Qed.

Lemma task_z_of_nil task (z_stack : gmap Z ndarray) :
  dom z_stack ∩ z_layers task = ∅ → task_z_of task z_stack = [].
Proof.
  intros Hempty. destruct (task_z_of task z_stack) as [|z l] eqn:E; [done|].
  assert (z ∈ task_z_of task z_stack) as Hz by (rewrite E; by left).
  apply task_z_of_elem in Hz as [Hz1 Hz2].
  assert (z ∈ dom z_stack ∩ z_layers task) as Hin
    by (apply elem_of_intersection; split; [by apply elem_of_dom|done]).
  rewrite Hempty in Hin. by apply not_elem_of_empty in Hin.
Qed.

Lemma channel_batch_empty task images input_info (z_stack : gmap Z ndarray) :
  images !! image_channel input_info = Some z_stack →
  task_z_of task z_stack = [] →
  channel_batch task images input_info
  = Raise (ValueError (no_channel_images_msg (image_channel input_info) (task_id task))).
Proof.
  intros Hc Hz. unfold channel_batch, getitem. rewrite Hc.
  unfold mbind at 1, result_bind at 1. by rewrite Hz.
Qed.

(** The error of the first input that cannot be processed is the error of
    the call. *)
Lemma get_prepared_images_abort task images before input_info after vars e :
  task_input_data task = before ++ input_info :: after →
  prepare_loop task images (∅, None) before = Ok vars →
  channel_batch task images input_info = Raise e →
  get_prepared_images task images = Raise e.
Proof.
  intros Hin Hloop Hb. unfold get_prepared_images.
  rewrite Hin, prepare_loop_app, Hloop.
  unfold mbind at 2, result_bind at 2. rewrite prepare_loop_cons.
  destruct vars as [cur sc]. by rewrite prepare_input_batch, Hb.
Qed.

End prepare_errors.

(** C3.  A channel of the task that is absent from the image set is not
    reported by the error "no input images found for the task".  The
    subscript [images[input_info.image_channel]] is evaluated before the
    check on the z-layers: on an image set without PolyT the call ends with
    the [KeyError] of the subscript, and with neither of the two
    [ValueError]s of the function that name the task. *)
Theorem get_prepared_images_missing_channel :
  delete "PolyT" dapi_polyt !! "PolyT" = None
  ∧ get_prepared_images (task_on Identity Identity) (delete "PolyT" dapi_polyt)
    = Raise (KeyError (KStr "PolyT"))
  ∧ get_prepared_images (task_on Identity Identity) (delete "PolyT" dapi_polyt)
    ≠ Raise (ValueError (no_channel_images_msg "PolyT" 7))
  ∧ get_prepared_images (task_on Identity Identity) (delete "PolyT" dapi_polyt)
    ≠ Raise (ValueError (no_images_msg 7)).
Proof.
  split; [apply lookup_delete_eq|].
  assert (get_prepared_images (task_on Identity Identity) (delete "PolyT" dapi_polyt)
          = Raise (KeyError (KStr "PolyT"))) as E by (vm_compute; reflexivity).
  rewrite E. by repeat split.
Qed.

(** C6 does not hold for every input of a task: DAPI reduced by two and
    PolyT left as it is stop the call at PolyT with the scale error, although
    the later input Far is in the image set with no z-layer of the task; the
    error names neither Far nor the task. *)
Lemma empty_intersection_after_scale_error :
  mkInputData "Far" Identity ∈ task_input_data (task_with_far (Downsample 2) Identity)
  ∧ dapi_polyt_far !! "Far" = Some {[ 5 := img44 ]}
  ∧ dom ({[ 5 := img44 ]} : gmap Z ndarray)
      ∩ z_layers (task_with_far (Downsample 2) Identity) = ∅
  ∧ get_prepared_images (task_with_far (Downsample 2) Identity) dapi_polyt_far
    = Raise (ValueError
               "Invalid preprocessing scale: input images for segmentation after postprocessing should have same sizes")
  ∧ get_prepared_images (task_with_far (Downsample 2) Identity) dapi_polyt_far
    ≠ Raise (ValueError (no_channel_images_msg "Far" 7)).
Proof.
  split; [set_solver|]. split; [reflexivity|]. split; [set_solver|].
  assert (get_prepared_images (task_with_far (Downsample 2) Identity) dapi_polyt_far
          = Raise (ValueError scale_mismatch_msg)) as E by (vm_compute; reflexivity).
  rewrite E. split; [reflexivity|]. intros E'. vm_compute in E'. discriminate E'.
Qed.

(** C6, amended.  When the loop reaches an input (the inputs before it were
    processed without error) whose channel is in the image set with no
    z-layer of the task, [get_prepared_images] raises the [ValueError] whose
    message names that channel and the identifier of the task.  The z-layers
    processed for a channel are the z-layers of the channel that the task
    asks for, in ascending order, and the images given to the pipeline are
    the images of these z-layers in that order. *)
Theorem get_prepared_images_empty_intersection `{FloatModel} `{FilterFactory}
    (task : SegTask) (images : ImageSet) (before after : list InputData)
    (input_info : InputData) (vars : ImageSet * option Scale) (z_stack : gmap Z ndarray) :
  task_input_data task = before ++ input_info :: after →
  prepare_loop task images (∅, None) before = Ok vars →
  images !! image_channel input_info = Some z_stack →
  dom z_stack ∩ z_layers task = ∅ →
  get_prepared_images task images
  = Raise (ValueError
             ("Invalid experiment: no " +:+ dquote +:+ image_channel input_info +:+ dquote
                +:+ " input images found for the task " +:+ str_int (task_id task)))
  ∧ (∀ stack : gmap Z ndarray,
       StronglySorted Z.lt (task_z_of task stack)
       ∧ ∀ z, z ∈ task_z_of task stack ↔ z ∈ dom stack ∩ z_layers task)
  ∧ (∀ processed task_z task_images filtered_images cur_scale,
       channel_batch task images processed
         = Ok (task_z, task_images, filtered_images, cur_scale) →
       ∃ stack,
         images !! image_channel processed = Some stack
         ∧ task_z = task_z_of task stack
         ∧ Forall2 (λ z im, stack !! z = Some im) task_z task_images
         ∧ create_filter_by_sequence (image_preprocessing processed) task_images
             = Ok filtered_images).
Proof.
  intros Hin Hloop Hc Hempty. split; [|split].
  - eapply get_prepared_images_abort; [done..|].
    apply channel_batch_empty with z_stack; [done|]. by apply task_z_of_nil.
  - intros stack. split; [apply task_z_of_sorted|]. intros z.
    by rewrite task_z_of_elem, elem_of_intersection, elem_of_dom.
  - intros processed tz ti fi cs Hb.
    apply channel_batch_Ok in Hb as (stack & ? & ? & _ & ? & ? & _). by exists stack.
Qed.

(** DAPI is processed, then Far has the z-layer 5 only. *)
Lemma get_prepared_images_empty_intersection_witness :
  dapi_polyt_far !! "Far" = Some {[ 5 := img44 ]}
  ∧ dom ({[ 5 := img44 ]} : gmap Z ndarray) ∩ z_layers task_dapi_far = ∅
  ∧ get_prepared_images task_dapi_far dapi_polyt_far
    = Raise (ValueError
               ("Invalid experiment: no " +:+ dquote +:+ "Far" +:+ dquote
                  +:+ " input images found for the task 7")).
Proof.
  split; [reflexivity|]. split; [set_solver|].
  edestruct (get_prepared_images_empty_intersection task_dapi_far dapi_polyt_far
               [@mkInputData example_filters "DAPI" Identity] []
               (@mkInputData example_filters "Far" Identity)) as [Hcall _].
  - reflexivity.
  - vm_compute. reflexivity.
  - reflexivity.
  - set_solver.
  - exact Hcall.
Defined.

Section prepare_identity.
Context `{FloatModel} `{FilterFactory}.
Implicit Types (task : SegTask) (images cur_images : ImageSet).

(** The dictionary built from the images of the z-layers themselves is the
    z-stack restricted to these z-layers. *)
Lemma dict_of_enumerate_lookup (z_stack : gmap Z ndarray) (filtered_images : list ndarray)
    (task_z : list Z) : ∀ (i : nat) (acc : gmap Z ndarray),
  Forall2 (λ z im, z_stack !! z = Some im) task_z (drop i filtered_images) →
  ∃ z_dict,
    dict_of_enumerate filtered_images i task_z acc = Ok z_dict
    ∧ ∀ z, z_dict !! z = if decide (z ∈ task_z) then z_stack !! z else acc !! z.
Proof.
  induction task_z as [|z0 rest IH]; intros i acc Hall.
  - exists acc. split; [done|]. intros z. case_decide as Hz; [|done].
    by apply elem_of_nil in Hz.
  - destruct (drop i filtered_images) as [|im tl] eqn:Hdrop; [by inversion Hall|].
    apply Forall2_cons in Hall as [Hz0 Hrest].
    assert (filtered_images !! i = Some im) as Hi.
    { pose proof (lookup_drop filtered_images i 0) as Hl.
      rewrite Hdrop, Nat.add_0_r in Hl. done. }
    rewrite (drop_S _ _ _ Hi) in Hdrop. injection Hdrop as <-.
    destruct (IH (S i) (<[z0 := im]> acc) Hrest) as (z_dict & Hrun & Hlook).
    exists z_dict. split.
    + simpl. unfold list_getitem. rewrite Hi. exact Hrun.
    + intros z. rewrite Hlook. destruct (decide (z = z0)) as [->|Hne].
      * rewrite lookup_insert_eq, (decide_True (P:=z0 ∈ z0 :: rest)) by (by left).
        by case_decide.
      * rewrite lookup_insert_ne by done.
        destruct (decide (z ∈ rest)) as [Hin|Hin].
        -- by rewrite (decide_True (P:=z ∈ z0 :: rest)) by (by right).
        -- rewrite (decide_False (P:=z ∈ z0 :: rest)); [done|].
           by intros [?|?]%elem_of_cons.
Qed.

Lemma dict_of_enumerate_restrict task (z_stack : gmap Z ndarray) (task_images : list ndarray) :
  Forall2 (λ z im, z_stack !! z = Some im) (task_z_of task z_stack) task_images →
  dict_of_enumerate task_images 0 (task_z_of task z_stack) ∅ = Ok (restrict_z task z_stack).
Proof.
  intros Hall.
  destruct (dict_of_enumerate_lookup z_stack task_images (task_z_of task z_stack) 0 ∅ Hall)
    as (z_dict & -> & Hlook).
  f_equal. apply map_eq. intros z. rewrite Hlook. apply option_eq. intros im.
  unfold restrict_z. rewrite map_lookup_filter_Some. simpl.
  case_decide as Hz; rewrite task_z_of_elem in Hz.
  - naive_solver.
  - rewrite lookup_empty. split; [done|]. intros [Him Hl]. destruct Hz. by eauto.
Qed.

Lemma zip_diagonal {A} (l : list A) (x y : A) : (x, y) ∈ zip l l → x = y ∧ x ∈ l.
Proof.
  induction l as [|a l IH]; simpl; [by intros ?%elem_of_nil|].
  intros [[= -> ->]|Hin]%elem_of_cons; [split; [done|by left]|].
  destruct (IH Hin) as [-> ?]. split; [done|by right].
Qed.

Lemma channel_batch_identity task images input_info :
  identity_ready task images input_info →
  ∃ z_stack task_images cur_scale,
    images !! image_channel input_info = Some z_stack
    ∧ channel_batch task images input_info
      = Ok (task_z_of task z_stack, task_images, task_images, cur_scale)
    ∧ Forall2 (λ z im, z_stack !! z = Some im) (task_z_of task z_stack) task_images
    ∧ cur_scale ≠ []
    ∧ ∀ y, y ∈ cur_scale → y = (float_one, float_one).
Proof.
  intros (Hid & z_stack & Hc & Hne & Hshape).
  destruct (task_images_Ok (Ok z_stack) z_stack (task_z_of task z_stack) eq_refl)
    as (ti & Hti & Hall).
  { by intros z [? _]%task_z_of_elem. }
  assert (task_z_of task z_stack ≠ []) as Hz.
  { intros E. apply Hne. apply set_eq. intros z.
    rewrite elem_of_intersection, elem_of_dom, <- task_z_of_elem, E. set_solver. }
  assert (∀ p, p ∈ zip ti ti → image_scale p = Ok (float_one, float_one)) as Hone.
  { intros [im im'] [<- Him]%zip_diagonal.
    apply list_elem_of_lookup in Him as [i Hi].
    destruct (Forall2_lookup_r _ _ _ _ _ Hall Hi) as (z & Hz' & Hzim).
    assert (z ∈ task_z_of task z_stack) as [_ Hl]%task_z_of_elem
      by (apply list_elem_of_lookup; by exists i).
    destruct (Hshape z im Hzim Hl) as (h & w & rest & Hs & Hh & Hw).
    apply image_scale_Ok. exists h, w, h, w. rewrite Hs. simpl.
    by rewrite !truediv_self. }
  destruct (mapM_result_total image_scale (zip ti ti)) as [cs Hcs].
  { intros p Hp. by rewrite Hone. }
  exists z_stack, ti, cs. split; [done|]. split; [|split; [done|split]].
  - unfold channel_batch. rewrite (proj2 (getitem_Ok KStr images _ z_stack) Hc).
    unfold mbind at 1, result_bind at 1. rewrite Hti.
    unfold mbind at 1, result_bind at 1.
    rewrite bool_decide_eq_false_2 by (by destruct (task_z_of task z_stack)).
    rewrite Hid. unfold mbind at 1, result_bind at 1. by rewrite Hcs.
  - apply mapM_result_Ok, Forall2_length in Hcs.
    rewrite length_zip, Nat.min_id, <- (Forall2_length _ _ _ Hall) in Hcs.
    intros ->. destruct (task_z_of task z_stack); done.
  - intros y Hy. apply mapM_result_Ok in Hcs.
    apply list_elem_of_lookup in Hy as [i Hi].
    destruct (Forall2_lookup_r _ _ _ _ _ Hcs Hi) as (p & Hp & Hpy).
    rewrite Hone in Hpy by (apply list_elem_of_lookup; by exists i). by injection Hpy.
Qed.

Lemma prepare_loop_identity task images inputs : ∀ cur_images scale,
  (∀ input_info, input_info ∈ inputs → identity_ready task images input_info) →
  scale = None ∨ scale = Some (float_one, float_one) →
  ∃ cur_images',
    prepare_loop task images (cur_images, scale) inputs
    = Ok (cur_images', if inputs is [] then scale else Some (float_one, float_one))
    ∧ ∀ c, cur_images' !! c =
           if bool_decide (c ∈ image_channel <$> inputs)
           then restrict_z task <$> images !! c
           else cur_images !! c.
Proof.
  induction inputs as [|i rest IH]; intros cur sc Hready Hsc.
  - exists cur. split; [done|]. intros c. rewrite bool_decide_eq_false_2; [done|].
    by intros ?%elem_of_nil.
  - destruct (channel_batch_identity task images i) as (zs & ti & cs & Hc & Hb & Hall & Hne & Hone).
    { apply Hready. by left. }
    destruct (IH (<[image_channel i := restrict_z task zs]> cur) (Some (float_one, float_one)))
      as (cur' & Hrun & Hlook).
    { intros info Hin. apply Hready. by right. }
    { by right. }
    exists cur'. split.
    + rewrite prepare_loop_cons.
      rewrite (prepare_input_uniform _ _ _ _ _ _ _ _ _ _ Hb Hne Hone Hsc).
      rewrite (dict_of_enumerate_restrict _ _ _ Hall).
      unfold mbind, result_bind. cbv beta iota. destruct rest; exact Hrun.
    + intros c. rewrite Hlook. rewrite fmap_cons.
      destruct (decide (c = image_channel i)) as [->|Hne'].
      * rewrite (bool_decide_eq_true_2 (_ ∈ _ :: _)) by (by left).
        rewrite lookup_insert_eq, Hc. by case_bool_decide.
      * rewrite lookup_insert_ne by done.
        destruct (decide (c ∈ image_channel <$> rest)) as [Hin|Hin].
        -- by rewrite !bool_decide_eq_true_2 by (done || by right).
        -- rewrite !bool_decide_eq_false_2; [done| |done].
           by intros [?|?]%elem_of_cons.
Qed.

End prepare_identity.

(** C5 does not hold for a task without inputs: all its inputs (there are
    none) have the identity pipeline and a channel of the image set with
    z-layers of the task, and the call raises instead of returning the scale
    (1.0, 1.0).  Nor does it hold for a tile that [np.squeeze] left with one
    axis: the width of the image is a subscript out of range. *)
Lemma identity_task_without_inputs_raises :
  (∀ input_info, input_info ∈ task_input_data task_without_inputs →
     (∀ l, create_filter_by_sequence (image_preprocessing input_info) l = Ok l)
     ∧ ∃ z_stack, dapi_polyt !! image_channel input_info = Some z_stack
                  ∧ dom z_stack ∩ z_layers task_without_inputs ≠ ∅)
  ∧ get_prepared_images task_without_inputs dapi_polyt
    = Raise (ValueError "Invalid experiment: no input images found for the task 7")
  ∧ (∀ cur_images,
      get_prepared_images task_without_inputs dapi_polyt
      ≠ Ok (cur_images, (float_one, float_one)))
  ∧ (∀ input_info, input_info ∈ task_input_data task_dapi →
       (∀ l, create_filter_by_sequence (image_preprocessing input_info) l = Ok l)
       ∧ ∃ z_stack, dapi_row !! image_channel input_info = Some z_stack
                    ∧ dom z_stack ∩ z_layers task_dapi ≠ ∅)
  ∧ get_prepared_images task_dapi dapi_row
    = Raise (IndexError "tuple index out of range").
Proof.
  split; [by intros ? ?%elem_of_nil|].
  assert (get_prepared_images task_without_inputs dapi_polyt
          = Raise (ValueError (no_images_msg 7))) as E by (vm_compute; reflexivity).
  rewrite E. split; [reflexivity|]. split; [by intros cur_images|].
  split; [|vm_compute; reflexivity].
  intros input_info Hin. unfold task_dapi in Hin. simpl in Hin.
  apply list_elem_of_singleton in Hin as ->. split; [done|].
  exists {[ 0 := row_tile ]}. split; [reflexivity|]. set_solver.
Qed.

(** C5, amended.  For a task with at least one input, when every input has
    the identity pipeline and a channel that is in the image set with at
    least one z-layer of the task, and the images of these z-layers have two
    axes (or more) of non-zero length, [get_prepared_images] returns the
    scale (1.0, 1.0) and an image set that has exactly the channels of the
    task, each with its input images restricted to the z-layers of the
    task. *)
Theorem get_prepared_images_identity `{FloatModel} `{FilterFactory}
    (task : SegTask) (images : ImageSet) :
  task_input_data task ≠ [] →
  (∀ input_info, input_info ∈ task_input_data task →
     (∀ l, create_filter_by_sequence (image_preprocessing input_info) l = Ok l)
     ∧ ∃ z_stack,
         images !! image_channel input_info = Some z_stack
         ∧ dom z_stack ∩ z_layers task ≠ ∅
         ∧ ∀ z im, z_stack !! z = Some im → z ∈ z_layers task →
             ∃ h w rest, shape im = h :: w :: rest ∧ h ≠ 0 ∧ w ≠ 0) →
  ∃ cur_images,
    get_prepared_images task images = Ok (cur_images, (float_one, float_one))
    ∧ ∀ c, cur_images !! c =
           if bool_decide (c ∈ image_channel <$> task_input_data task)
           then filter (λ kv, kv.1 ∈ z_layers task) <$> images !! c
           else None.
Proof.
  intros Hne Hready.
  destruct (prepare_loop_identity task images (task_input_data task) ∅ None Hready)
    as (cur_images & Hrun & Hlook); [by left|].
  exists cur_images. split.
  - unfold get_prepared_images, Scale in *. rewrite Hrun.
    unfold mbind, result_bind. simpl. by destruct (task_input_data task).
  - intros c. rewrite Hlook. by rewrite lookup_empty.
Qed.

(** The identity on the two z-layers of DAPI and the z-layer of PolyT. *)
Lemma get_prepared_images_identity_witness :
  get_prepared_images (task_on Identity Identity) dapi_polyt
  = Ok (dapi_polyt, (float_one, float_one)).
Proof.
  destruct (get_prepared_images_identity (task_on Identity Identity) dapi_polyt)
    as (cur_images & Hrun & Hlook).
  - done.
  - assert (∀ z im, ({[ 0 := img44; 1 := img44 ]} : gmap Z ndarray) !! z = Some im →
                    ∃ h w rest, shape im = h :: w :: rest ∧ h ≠ 0 ∧ w ≠ 0) as Hshape.
    { intros z im Hz. apply lookup_insert_Some in Hz as [[_ <-]|[_ Hz]].
      - by exists 4, 4, [].
      - apply lookup_singleton_Some in Hz as [_ <-]. by exists 4, 4, []. }
    intros input_info Hin. unfold task_on in Hin. simpl in Hin.
    assert (input_info = mkInputData "DAPI" Identity ∨ input_info = mkInputData "PolyT" Identity)
      as Hcases by set_solver.
    clear Hin. split.
    + destruct Hcases as [->| ->]; done.
    + destruct Hcases as [->| ->].
      * exists {[ 0 := img44; 1 := img44 ]}. split; [reflexivity|]. split; [set_solver|].
        intros z im Hz _. exact (Hshape z im Hz).
      * exists {[ 0 := img44 ]}. split; [reflexivity|]. split; [set_solver|].
        intros z im Hz _. apply lookup_singleton_Some in Hz as [_ <-]. by exists 4, 4, [].
  - rewrite Hrun. do 2 f_equal. apply map_eq. intros c. rewrite Hlook.
    case_bool_decide as Hc.
    + unfold task_on in Hc. simpl in Hc.
      assert (c = "DAPI" ∨ c = "PolyT") as [->| ->] by set_solver;
        vm_compute; reflexivity.
    + assert (c ≠ "DAPI" ∧ c ≠ "PolyT") as [? ?].
      { unfold task_on in Hc. simpl in Hc. split; intros ->; apply Hc; set_solver. }
      unfold dapi_polyt. by rewrite lookup_insert_ne, lookup_singleton_ne.
Defined.

(** ** The stacked view of an image set *)

Section as_stack_facts.
Implicit Types (self : ImageSet) (s : list Z).




Lemma elem_of_z_levels self z :
  z ∈ z_levels self ↔ ∃ c d, self !! c = Some d ∧ is_Some (d !! z).
Proof.
  unfold z_levels, values. rewrite elem_of_union_list. split.
  - intros (X & HX & Hz). apply list_elem_of_fmap in HX as (d & -> & Hd).
    apply list_elem_of_fmap in Hd as ([c d'] & -> & Hcd).
    apply elem_of_map_to_list in Hcd. exists c, d'. split; [done|]. by apply elem_of_dom.
  - intros (c & d & Hc & Hz). exists (dom d). split; [|by apply elem_of_dom].
    apply list_elem_of_fmap. exists d. split; [done|].
    apply list_elem_of_fmap. exists (c, d). split; [done|]. by apply elem_of_map_to_list.
Qed.


End as_stack_facts.




(** ** More on the tile reader *)

Section read_tile_more.
Context `{RasterStore}.
Implicit Types (window : Window) (path : string) (st : state).

Lemma read_tile_loop_world window path num_tries num_retries tries : ∀ st,
  world (read_tile_loop window path num_tries num_retries tries st).2
  = world_after path window
      (S (leading_failures path window (length tries) (world st)) `min` length tries)
      (world st).
Proof.
  induction tries as [|t rest IH]; intros st; [done|].
  rewrite read_tile_loop_cons. simpl length. simpl leading_failures.
  destruct (raster_read path window (world st)) as [[image| |name] w] eqn:E.
  - simpl. by rewrite E.
  - rewrite IH. simpl. by rewrite E.
  - simpl. by rewrite E.
Qed.

(** The failures at the head of a run of attempts, read off the outcomes. *)
Lemma leading_failures_outcomes path window (n k : nat) (o : read_outcome) : ∀ w,
  (k < n)%nat → o ≠ ReadOSError →
  attempt_outcomes path window (S k) w = replicate k ReadOSError ++ [o] →
  leading_failures path window n w = k.
Proof.
  revert n. induction k as [|k IH]; intros [|n] w Hk Ho; try lia; simpl.
  - destruct (raster_read path window w) as [o' w']. intros [= ->].
    by destruct o.
  - destruct (raster_read path window w) as [o' w'] eqn:E. intros [= -> Hrest].
    f_equal. apply IH; [lia|done|]. simpl. exact Hrest.
Qed.

Lemma read_tile_loop_fatal window path num_tries num_retries tries name : ∀ st (k : nat),
  (k < length tries)%nat →
  attempt_outcomes path window (S k) (world st)
    = replicate k ReadOSError ++ [ReadFatal name] →
  (read_tile_loop window path num_tries num_retries tries st).1
  = Raise (ExternalError name).
Proof.
  induction tries as [|t rest IH]; intros st k Hk Hout; [simpl in Hk; lia|].
  rewrite read_tile_loop_cons. simpl in Hout.
  destruct (raster_read path window (world st)) as [o w].
  destruct k as [|k]; simpl in Hout.
  - by injection Hout as ->.
  - injection Hout as -> Hout. apply (IH _ k); [simpl in Hk; lia|].
    simpl. by destruct (raster_read path window w).
Qed.

End read_tile_more.

(** X1.  [read_tile] makes one attempt after the other until one does not
    raise an [OSError], and never more than [num_tries] of them: the world it
    leaves is the world after the failures at the head of the run plus one
    attempt, or after [num_tries] attempts when they all fail. *)
Theorem read_tile_attempts `{RasterStore} (window : Window) (path : string)
    (num_tries : Z) (st : state) :
  let failures := leading_failures path window (Z.to_nat num_tries) (world st) in
  world (read_tile window path num_tries st).2
  = world_after path window (S failures `min` Z.to_nat num_tries) (world st)
  ∧ (S failures `min` Z.to_nat num_tries ≤ Z.to_nat num_tries)%nat.
Proof.
  intros failures. split; [|lia].
  unfold read_tile. by rewrite read_tile_loop_world, length_seqZ.
Qed.

(** Five tries are allowed and the second attempt succeeds: the third
    outcome of the script is left unread. *)
Lemma read_tile_attempts_witness :
  world (read_tile (0, 0, 2, 2) "a.tif" 5
           (@State scripted_store [ReadOSError; ReadOk img22; ReadOk img44] [])).2
  = [ReadOk img44].
Proof.
  rewrite (proj1 (read_tile_attempts (0, 0, 2, 2) "a.tif" 5
                    (@State scripted_store [ReadOSError; ReadOk img22; ReadOk img44] []))).
  reflexivity.
Defined.

(** X2.  An exception of an attempt that is not an [OSError] is not retried:
    after [k] attempts that raised an [OSError], [read_tile] raises the
    exception of the next attempt, not the [IOError] of the exhausted
    retries, and it has printed the [k] retry messages of the failures
    before it. *)
Theorem read_tile_fatal `{RasterStore} (window : Window) (path : string)
    (num_tries : Z) (st : state) (k : nat) (name : string) :
  (k < Z.to_nat num_tries)%nat →
  attempt_outcomes path window (S k) (world st)
    = replicate k ReadOSError ++ [ReadFatal name] →
  (read_tile window path num_tries st).1 = Raise (ExternalError name)
  ∧ stdout (read_tile window path num_tries st).2
    = stdout st ++
        ((λ try_number, retry_msg path window try_number (num_tries - 1))
           <$> seqZ 1 (Z.of_nat k))
  ∧ world (read_tile window path num_tries st).2
    = world_after path window (S k) (world st).
Proof.
  intros Hk Hout. unfold read_tile. split; [|split].
  - eapply read_tile_loop_fatal; [|done]. by rewrite length_seqZ.
  - rewrite read_tile_loop_stdout, length_seqZ.
    rewrite (leading_failures_outcomes _ _ _ k (ReadFatal name)) by done.
    rewrite retry_numbers by lia. do 3 f_equal. lia.
  - rewrite read_tile_loop_world, length_seqZ.
    rewrite (leading_failures_outcomes _ _ _ k (ReadFatal name)) by done.
    f_equal. lia.
Qed.

(** The second attempt raises something else than an [OSError]. *)
Lemma read_tile_fatal_witness :
  read_tile (0, 0, 2, 2) "a.tif" 5
    (@State scripted_store [ReadOSError; ReadFatal "MemoryError"; ReadOk img22] [])
  = (Raise (ExternalError "MemoryError"),
     @State scripted_store [ReadOk img22]
       ["Failed to read a.tif at (0, 0, 2, 2). Retrying 1/4."]).
Proof.
  destruct (read_tile_fatal (0, 0, 2, 2) "a.tif" 5
              (@State scripted_store [ReadOSError; ReadFatal "MemoryError"; ReadOk img22] [])
              1 "MemoryError" ltac:(vm_compute; lia) eq_refl) as (Hres & Hout & Hworld).
  destruct (read_tile _ _ _ _) as [r [w out]]. simpl in *. by subst.
Defined.

(** ** More on the assembler and the views of an image set *)

Section assembly_more.
Context `{RasterStore}.
Implicit Types (images : ImageSet) (st : state).

(** The assembly returns only when every tile was read. *)
Lemma get_segmentation_images_loop_reads images_info window_info :
  ∀ images st result_images st',
    get_segmentation_images_loop images_info window_info images st = (Ok result_images, st') →
    ∃ tiles, read_all images_info window_info st = (Ok tiles, st').
Proof.
  induction images_info as [|i rest IH]; intros images st res st'.
  - intros [= _ <-]. by exists [].
  - rewrite get_segmentation_images_loop_cons, read_all_cons.
    destruct (read_tile _ _ _ st) as [[tile|e] st1]; [|done].
    intros Hrest. destruct (IH _ _ _ _ Hrest) as [tiles ->]. by eexists.
Qed.

(** The channels of the result and its z-stacks, none of which is empty. *)
Lemma get_segmentation_images_loop_channels images_info window_info :
  ∀ images st result_images st',
    get_segmentation_images_loop images_info window_info images st = (Ok result_images, st') →
    (∀ c d, images !! c = Some d → d ≠ ∅) →
    dom result_images = dom images ∪ list_to_set (channel <$> images_info)
    ∧ ∀ c d, result_images !! c = Some d → d ≠ ∅.
Proof.
  induction images_info as [|i rest IH]; intros images st res st'.
  - intros [= <- _] Hne. split; [set_solver|done].
  - rewrite get_segmentation_images_loop_cons.
    destruct (read_tile _ _ _ st) as [[tile|e] st1]; [|done].
    intros Hrest Hne. destruct (IH _ _ _ _ Hrest) as [Hdom Hne'].
    + intros c d. destruct (decide (c = channel i)) as [->|Hc].
      * rewrite lookup_insert_eq. intros [= <-] E.
        apply (f_equal (.!! z_layer i)) in E.
        by rewrite lookup_insert_eq, lookup_empty in E.
      * rewrite lookup_insert_ne by done. apply Hne.
    + split; [|done]. rewrite Hdom, dom_insert_L, fmap_cons, list_to_set_cons. set_solver.
Qed.

End assembly_more.

(** X3.  The image set returned by [get_segmentation_images] has exactly the
    channels of the descriptors, and none of its z-stacks is empty: the
    empty z-stack that an iteration creates for a new channel receives a
    tile in the same iteration, or the call does not return. *)
Theorem get_segmentation_images_channels `{RasterStore} (images_info : list ImageInfo)
    (window_info : Window) (st st' : state) (images : ImageSet) :
  get_segmentation_images images_info window_info st = (Ok images, st') →
  dom images = list_to_set (channel <$> images_info)
  ∧ (∀ c d, images !! c = Some d → d ≠ ∅)
  ∧ ∃ tiles, read_all images_info window_info st = (Ok tiles, st').
Proof.
  intros Hrun. unfold get_segmentation_images in Hrun.
  destruct (get_segmentation_images_loop_channels _ _ _ _ _ _ Hrun) as [Hdom Hne].
  { intros c d. by rewrite lookup_empty. }
  split; [|split; [done|]].
  - rewrite Hdom, dom_empty_L. set_solver.
  - by eapply get_segmentation_images_loop_reads.
Qed.

Lemma get_segmentation_images_channels_witness :
  get_segmentation_images
    [mkImageInfo "DAPI" 0 "a.tif"; mkImageInfo "PolyT" 0 "b.tif"; mkImageInfo "DAPI" 1 "c.tif"]
    (0, 0, 2, 2)
    (@State scripted_store [ReadOk img22; ReadOk img22; ReadOk img22] [])
  = (Ok {[ "DAPI" := {[ 0 := img22; 1 := img22 ]}; "PolyT" := {[ 0 := img22 ]} ]},
     @State scripted_store [] [])
  ∧ dom ({[ "DAPI" := {[ 0 := img22; 1 := img22 ]}; "PolyT" := {[ 0 := img22 ]} ]} : ImageSet)
    = list_to_set ["DAPI"; "PolyT"; "DAPI"].
Proof.
  assert (get_segmentation_images
            [mkImageInfo "DAPI" 0 "a.tif"; mkImageInfo "PolyT" 0 "b.tif";
             mkImageInfo "DAPI" 1 "c.tif"]
            (0, 0, 2, 2)
            (@State scripted_store [ReadOk img22; ReadOk img22; ReadOk img22] [])
          = (Ok {[ "DAPI" := {[ 0 := img22; 1 := img22 ]}; "PolyT" := {[ 0 := img22 ]} ]},
             @State scripted_store [] [])) as Hrun by (vm_compute; reflexivity).
  split; [exact Hrun|].
  exact (proj1 (get_segmentation_images_channels _ _ _ _ _ Hrun)).
Defined.

Section views_more.
Implicit Types (self : ImageSet).

Lemma lookup2_is_Some self c z :
  is_Some (lookup2 self c z) ↔ ∃ d, self !! c = Some d ∧ is_Some (d !! z).
Proof.
  unfold lookup2. destruct (self !! c) as [d|]; simpl.
  - split; [by exists d|by intros (? & [= <-] & ?)].
  - split; [by intros [? ?]|by intros (? & ? & ?)].
Qed.

Lemma elem_of_as_list self key (a : ndarray) :
  a ∈ as_list self key ↔ ∃ z, lookup2 self key z = Some a.
Proof.
  unfold as_list, lookup2. rewrite list_elem_of_fmap. split.
  - intros ([z a'] & -> & Hin). apply elem_of_map_to_list in Hin. exists z.
    destruct (self !! key) as [d|]; simpl in *; [done|]. by rewrite lookup_empty in Hin.
  - intros [z Hz]. exists (z, a). split; [done|]. apply elem_of_map_to_list.
    destruct (self !! key) as [d|]; simpl in *; done.
Qed.

End views_more.

(** X4.  [z_levels] is the set of the z-layers under which some channel has
    an array: it is empty exactly when every z-stack is empty (in particular
    for the empty image set), and storing a z-stack for a channel adds the
    z-layers of that z-stack to those of the other channels. *)
Theorem z_levels_union (self : ImageSet) :
  (∀ z, z ∈ z_levels self ↔ ∃ c, is_Some (lookup2 self c z))
  ∧ (z_levels self = ∅ ↔ ∀ c d, self !! c = Some d → d = ∅)
  ∧ (∀ c (d : gmap Z ndarray),
       z_levels (<[c := d]> self) = dom d ∪ z_levels (delete c self)).
Proof.
  assert (∀ (m : ImageSet) z, z ∈ z_levels m ↔ ∃ c, is_Some (lookup2 m c z)) as Hel.
  { intros m z. rewrite elem_of_z_levels. by setoid_rewrite lookup2_is_Some. }
  split; [by apply Hel|]. split; [split|].
  - intros Hempty c d Hc. apply map_eq. intros z. rewrite lookup_empty.
    destruct (d !! z) as [a|] eqn:Hz; [|done].
    assert (z ∈ z_levels self) as Hin.
    { apply elem_of_z_levels. exists c, d. by rewrite Hz. }
    rewrite Hempty in Hin. by apply not_elem_of_empty in Hin.
  - intros Hall. apply set_eq. intros z. rewrite elem_of_z_levels. split.
    + intros (c & d & Hc & [a Ha]). rewrite (Hall c d Hc), lookup_empty in Ha. done.
    + by intros ?%not_elem_of_empty.
  - intros c d. apply set_eq. intros z.
    rewrite elem_of_union, elem_of_dom, !elem_of_z_levels. split.
    + intros (c' & d' & Hc' & Hz). destruct (decide (c' = c)) as [->|Hne].
      * rewrite lookup_insert_eq in Hc'. injection Hc' as <-. by left.
      * rewrite lookup_insert_ne in Hc' by done. right. exists c', d'.
        by rewrite lookup_delete_ne.
    + intros [Hz|(c' & d' & Hc' & Hz)].
      * exists c, d. by rewrite lookup_insert_eq.
      * destruct (decide (c' = c)) as [->|Hne]; [by rewrite lookup_delete_eq in Hc'|].
        rewrite lookup_delete_ne in Hc' by done. exists c', d'.
        by rewrite lookup_insert_ne.
Qed.

(** X5.  The z-layers of the image set assembled from a list of descriptors
    are the z-layers of the descriptors. *)
Theorem z_levels_assembled `{RasterStore} (images_info : list ImageInfo)
    (window_info : Window) (st st' : state) (images : ImageSet) :
  get_segmentation_images images_info window_info st = (Ok images, st') →
  z_levels images = list_to_set (z_layer <$> images_info).
Proof.
  intros Hrun. pose proof Hrun as Hrun'. unfold get_segmentation_images in Hrun'.
  destruct (get_segmentation_images_loop_reads _ _ _ _ _ _ Hrun') as [tiles Hall].
  destruct (get_segmentation_images_loop_spec _ _ ∅ _ _ _ Hall) as (images' & Hrun'' & Hlook).
  rewrite Hrun' in Hrun''. injection Hrun'' as <-.
  apply set_eq. intros z. rewrite elem_of_z_levels, elem_of_list_to_set. split.
  - intros (c & d & Hc & Hz).
    assert (is_Some (lookup2 images c z)) as Hsome by (apply lookup2_is_Some; by exists d).
    rewrite Hlook in Hsome.
    assert (is_Some (last_tile (zip images_info tiles) c z)) as Hlast.
    { destruct (last_tile _ c z); [done|]. unfold lookup2 in Hsome.
      rewrite lookup_empty in Hsome. by destruct Hsome. }
    apply last_tile_is_Some in Hlast; [|by eapply read_all_length].
    apply list_elem_of_fmap in Hlast as (i & [= -> ->] & Hi).
    apply list_elem_of_fmap. by exists i.
  - intros (i & -> & Hi)%list_elem_of_fmap.
    assert (is_Some (last_tile (zip images_info tiles) (channel i) (z_layer i))) as [t Ht].
    { apply last_tile_is_Some; [by eapply read_all_length|].
      apply list_elem_of_fmap. by exists i. }
    specialize (Hlook (channel i) (z_layer i)). rewrite Ht in Hlook.
    assert (is_Some (lookup2 images (channel i) (z_layer i))) as Hsome by (by rewrite Hlook).
    apply lookup2_is_Some in Hsome as (d & Hc & Hz). by exists (channel i), d.
Qed.

Lemma z_levels_assembled_witness :
  z_levels ({[ "DAPI" := {[ 0 := img22; 1 := img22 ]}; "PolyT" := {[ 0 := img22 ]} ]} : ImageSet)
  = list_to_set [0; 0; 1].
Proof.
  apply (z_levels_assembled
           [mkImageInfo "DAPI" 0 "a.tif"; mkImageInfo "PolyT" 0 "b.tif";
            mkImageInfo "DAPI" 1 "c.tif"]
           (0, 0, 2, 2)
           (@State scripted_store [ReadOk img22; ReadOk img22; ReadOk img22] [])
           (@State scripted_store [] [])).
  vm_compute. reflexivity.
Defined.

(** X6.  [as_list] never raises: it is the empty list exactly for a channel
    that the image set does not have or whose z-stack is empty.  Otherwise
    it lists the arrays of the channel, one for every z-layer of the
    channel. *)
Theorem as_list_arrays (self : ImageSet) (key : string) :
  (as_list self key = [] ↔ self !! key = None ∨ self !! key = Some ∅)
  ∧ (∀ a, a ∈ as_list self key ↔ ∃ z, lookup2 self key z = Some a)
  ∧ length (as_list self key) = size (dom (default ∅ (self !! key))).
Proof.
  split; [|split].
  - unfold as_list. destruct (self !! key) as [d|]; simpl.
    + split.
      * intros E%fmap_nil_inv%map_to_list_empty_iff. right. by rewrite E.
      * intros [?|[= ->]]; [done|]. by rewrite map_to_list_empty.
    + rewrite map_to_list_empty. split; [by left|done].
  - apply elem_of_as_list.
  - unfold as_list. by rewrite length_fmap, length_map_to_list, size_dom.
Qed.

(** X7.  For the image set assembled from a list of descriptors, [as_list]
    of a channel has as many arrays as the descriptors of that channel have
    distinct z-layers, and is empty for a channel of no descriptor. *)
Theorem as_list_assembled `{RasterStore} (images_info : list ImageInfo)
    (window_info : Window) (st st' : state) (images : ImageSet) (key : string) :
  get_segmentation_images images_info window_info st = (Ok images, st') →
  length (as_list images key)
  = size (list_to_set (z_layer <$> filter (λ i, channel i = key) images_info) : gset Z).
Proof.
  intros Hrun. pose proof Hrun as Hrun'. unfold get_segmentation_images in Hrun'.
  destruct (get_segmentation_images_loop_reads _ _ _ _ _ _ Hrun') as [tiles Hall].
  destruct (get_segmentation_images_loop_spec _ _ ∅ _ _ _ Hall) as (images' & Hrun'' & Hlook).
  rewrite Hrun' in Hrun''. injection Hrun'' as <-.
  unfold as_list. rewrite length_fmap, length_map_to_list, <- size_dom. f_equal.
  apply set_eq. intros z. rewrite elem_of_dom, elem_of_list_to_set, list_elem_of_fmap.
  assert (is_Some (default ∅ (images !! key) !! z) ↔ is_Some (lookup2 images key z)) as ->.
  { unfold lookup2. destruct (images !! key); simpl; [done|]. by rewrite lookup_empty. }
  rewrite Hlook.
  assert (is_Some match last_tile (zip images_info tiles) key z with
                  | Some t => Some t
                  | None => lookup2 ∅ key z
                  end
          ↔ is_Some (last_tile (zip images_info tiles) key z)) as ->.
  { destruct (last_tile _ key z); [done|]. unfold lookup2. by rewrite lookup_empty. }
  rewrite last_tile_is_Some by (by eapply read_all_length).
  rewrite list_elem_of_fmap. split.
  - intros (i & [= -> ->] & Hi). exists i. split; [done|]. by apply list_elem_of_filter.
  - intros (i & -> & [<- Hi]%list_elem_of_filter). by exists i.
Qed.

Lemma as_list_assembled_witness :
  length (as_list
            ({[ "DAPI" := {[ 0 := img22; 1 := img22 ]}; "PolyT" := {[ 0 := img22 ]} ]} : ImageSet)
            "DAPI")
  = 2%nat.
Proof.
  rewrite (as_list_assembled
             [mkImageInfo "DAPI" 0 "a.tif"; mkImageInfo "PolyT" 0 "b.tif";
              mkImageInfo "DAPI" 1 "c.tif"]
             (0, 0, 2, 2)
             (@State scripted_store [ReadOk img22; ReadOk img22; ReadOk img22] [])
             (@State scripted_store [] []) _ "DAPI") by (vm_compute; reflexivity).
  reflexivity.
Defined.

Section as_stack_more.
Implicit Types (self : ImageSet).

Lemma z_levels_no_arrays self :
  (∀ c d, self !! c = Some d → d = ∅) → z_levels self = ∅.
Proof.
  intros Hall. apply set_eq. intros z. rewrite elem_of_z_levels. split.
  - intros (c & d & Hc & [a Ha]). rewrite (Hall c d Hc), lookup_empty in Ha. done.
  - by intros ?%not_elem_of_empty.
Qed.

Lemma np_stack_last_inv (cols : list ndarray) (row : ndarray) :
  np_stack_last cols = Ok row →
  ∃ a, head cols = Some a
       ∧ (∀ b, b ∈ cols → shape b = shape a)
       ∧ shape row = shape a ++ [Z.of_nat (length cols)].
Proof.
  destruct cols as [|a rest]; [done|]. unfold np_stack_last.
  destruct (forallb (same_shape a) rest) eqn:Hall; [|done]. intros [= <-].
  exists a. split; [done|]. split; [|done].
  intros b [->|Hb]%elem_of_cons; [done|].
  apply Is_true_true, forallb_True in Hall. rewrite Forall_forall in Hall.
  specialize (Hall b Hb). unfold same_shape in Hall. by apply bool_decide_unpack in Hall.
Qed.

Lemma np_array_inv (rows : list ndarray) (r : ndarray) :
  np_array rows = Ok r → rows ≠ [] →
  ∃ a, head rows = Some a
       ∧ (∀ b, b ∈ rows → shape b = shape a)
       ∧ shape r = Z.of_nat (length rows) :: shape a.
Proof.
  destruct rows as [|a rest]; [done|]. unfold np_array.
  destruct (forallb (same_shape a) rest) eqn:Hall; [|done]. intros [= <-] _.
  exists a. split; [done|]. split; [|done].
  intros b [->|Hb]%elem_of_cons; [done|].
  apply Is_true_true, forallb_True in Hall. rewrite Forall_forall in Hall.
  specialize (Hall b Hb). unfold same_shape in Hall. by apply bool_decide_unpack in Hall.
Qed.

(** What a returned stack looks like, for both branches of [as_stack]. *)
Lemma stack_rows_shape {K} (get : K → Z → result ndarray) (keys : list K) (zs : list Z)
    (r : ndarray) :
  (rows ← mapM (λ z, cols ← mapM (λ k, get k z) keys; np_stack_last cols) zs;
   np_array rows) = Ok r →
  zs ≠ [] →
  ∃ s, shape r = Z.of_nat (length zs) :: s ++ [Z.of_nat (length keys)]
       ∧ ∀ z k, z ∈ zs → k ∈ keys → ∃ a, get k z = Ok a ∧ shape a = s.
Proof.
  intros Hrun Hzs. unfold mbind at 1, result_bind at 1 in Hrun.
  destruct (mapM (λ z, cols ← mapM (λ k, get k z) keys; np_stack_last cols) zs)
    as [rows|e] eqn:Hrows; [|done].
  apply mapM_result_Ok in Hrows.
  assert (∀ z row, z ∈ zs → (cols ← mapM (λ k, get k z) keys; np_stack_last cols) = Ok row →
            ∃ s, shape row = s ++ [Z.of_nat (length keys)]
                 ∧ ∀ k, k ∈ keys → ∃ a, get k z = Ok a ∧ shape a = s) as Hrow.
  { intros z row _ Hz. unfold mbind, result_bind in Hz.
    destruct (mapM (λ k, get k z) keys) as [cols|e] eqn:Hcols; [|done].
    apply mapM_result_Ok in Hcols.
    destruct (np_stack_last_inv _ _ Hz) as (a & _ & Hsame & Hshape).
    exists (shape a). split; [by rewrite Hshape, (Forall2_length _ _ _ Hcols)|].
    intros k [j Hj]%list_elem_of_lookup.
    destruct (Forall2_lookup_l _ _ _ _ _ Hcols Hj) as (b & Hb & Hkb).
    exists b. split; [done|]. apply Hsame, list_elem_of_lookup. by exists j. }
  assert (rows ≠ []) as Hne.
  { intros ->. apply Forall2_nil_inv_r in Hrows. done. }
  destruct (np_array_inv _ _ Hrun Hne) as (row0 & Hhead & Hsame & Hshape).
  destruct rows as [|row0' rows']; [done|]. injection Hhead as ->.
  destruct zs as [|z0 zs']; [done|].
  apply Forall2_cons in Hrows as [Hz0 Hrest].
  destruct (Hrow z0 row0 ltac:(by left) Hz0) as (s & Hs & Hcols0).
  exists s. split.
  { rewrite Hshape, Hs. simpl. by rewrite (Forall2_length _ _ _ Hrest). }
  intros z k [->|Hz]%elem_of_cons Hk; [by apply Hcols0|].
  apply list_elem_of_lookup in Hz as [i Hi].
  destruct (Forall2_lookup_l _ _ _ _ _ Hrest Hi) as (row & Hrowi & Hzrow).
  destruct (Hrow z row) as (s' & Hs' & Hcols); [|done|].
  { right. apply list_elem_of_lookup. by exists i. }
  assert (shape row = shape row0) as Heq.
  { apply Hsame. right. apply list_elem_of_lookup. by exists i. }
  rewrite Hs, Hs' in Heq. apply app_inj_tail in Heq as [-> _]. by apply Hcols.
Qed.

End as_stack_more.

(** X8.  On an image set without arrays (no channel, or only empty z-stacks)
    [as_stack] returns the empty array of shape [(0,)] for every [order],
    also for an order that names channels the image set does not have: no
    subscript is evaluated. *)
Theorem as_stack_no_levels (self : ImageSet) (order : option (list string)) :
  (∀ c d, self !! c = Some d → d = ∅) →
  as_stack self order = Ok (NDArray [0] []).
Proof.
  intros Hall. unfold as_stack. rewrite (z_levels_no_arrays self Hall), elements_empty.
  by destruct (negb (list_truthy order)).
Qed.

Lemma as_stack_no_levels_witness :
  as_stack ({[ "DAPI" := ∅ ]} : ImageSet) (Some ["PolyT"]) = Ok (NDArray [0] []).
Proof.
  apply as_stack_no_levels. intros c d Hc.
  apply lookup_singleton_Some in Hc as [_ <-]. reflexivity.
Defined.

(** X9.  When [as_stack] returns for an image set with at least one z-layer,
    all the arrays it subscripted have one shape [s], and the result has the
    shape [(number of z-layers, *s, number of stacked channels)]: the stacked
    channels are those of [order], with repetitions, or all the channels of
    the image set when [order] is [None] or empty. *)
Theorem as_stack_shape (self : ImageSet) (order : option (list string)) (r : ndarray) :
  as_stack self order = Ok r →
  z_levels self ≠ ∅ →
  ∃ s,
    shape r = Z.of_nat (size (z_levels self)) :: s
                ++ [Z.of_nat (if list_truthy order then length (default [] order)
                              else size (dom self))]
    ∧ (list_truthy order = false →
       ∀ c d z, self !! c = Some d → z ∈ z_levels self →
                ∃ a, d !! z = Some a ∧ shape a = s)
    ∧ (list_truthy order = true →
       ∀ k z, k ∈ default [] order → z ∈ z_levels self →
              ∃ d a, self !! k = Some d ∧ d !! z = Some a ∧ shape a = s).
Proof.
  intros Hrun Hne.
  assert (elements (z_levels self) ≠ []) as Hzs.
  { intros E. apply Hne. by apply elements_empty_inv in E as ->%leibniz_equiv. }
  unfold as_stack in Hrun. destruct (list_truthy order) eqn:Horder; simpl in Hrun.
  - destruct (stack_rows_shape _ _ _ _ Hrun Hzs) as (s & Hshape & Hget).
    exists s. split; [done|]. split; [done|]. intros _ k z Hk Hz.
    destruct (Hget z k (proj2 (elem_of_elements _ _) Hz) Hk) as (a & Ha & Hs).
    unfold mbind, result_bind in Ha.
    destruct (getitem KStr self k) as [d|] eqn:Hd; [|done].
    apply getitem_Ok in Hd, Ha. by exists d, a.
  - destruct (stack_rows_shape _ _ _ _ Hrun Hzs) as (s & Hshape & Hget).
    exists s. split.
    { rewrite Hshape. unfold values. by rewrite length_fmap, length_map_to_list, size_dom. }
    split; [|done]. intros _ c d z Hc Hz.
    destruct (Hget z d (proj2 (elem_of_elements _ _) Hz)) as (a & Ha & Hs).
    { apply list_elem_of_fmap. exists (c, d). split; [done|]. by apply elem_of_map_to_list. }
    apply getitem_Ok in Ha. by exists a.
Qed.

Lemma as_stack_shape_witness :
  ∃ s, shape (NDArray [2; 4; 4; 1] (data img44 ++ data img44))
       = Z.of_nat (size (z_levels dapi_polyt)) :: s ++ [1]
       ∧ ∀ k z, k ∈ ["DAPI"] → z ∈ z_levels dapi_polyt →
                ∃ d a, dapi_polyt !! k = Some d ∧ d !! z = Some a ∧ shape a = s.
Proof.
  destruct (as_stack_shape dapi_polyt (Some ["DAPI"])
              (NDArray [2; 4; 4; 1] (data img44 ++ data img44))) as (s & Hshape & _ & Horder).
  - vm_compute. reflexivity.
  - intros E. assert (0 ∈ z_levels dapi_polyt) as Hin by (by vm_compute).
    rewrite E in Hin. by apply not_elem_of_empty in Hin.
  - exists s. split; [exact Hshape|]. exact (Horder eq_refl).
Defined.

Section squeeze_more.
Context `{RasterStore}.

Lemma np_squeeze_no_unit_axis (image : ndarray) : 1 ∉ shape (np_squeeze image).
Proof. unfold np_squeeze. simpl. by intros [? _]%list_elem_of_filter. Qed.

Lemma read_tile_loop_Ok window path num_tries num_retries tries : ∀ st tile st',
  read_tile_loop window path num_tries num_retries tries st = (Ok tile, st') →
  ∃ (k : nat) image,
    (k < length tries)%nat
    ∧ attempt_outcomes path window (S k) (world st) = replicate k ReadOSError ++ [ReadOk image]
    ∧ tile = np_squeeze image.
Proof.
  induction tries as [|t rest IH]; intros st tile st' Hrun; [done|].
  rewrite read_tile_loop_cons in Hrun.
  destruct (raster_read path window (world st)) as [[image| |name] w] eqn:E; [| |done].
  - injection Hrun as <- <-. exists 0%nat, image. split; [simpl; lia|].
    split; [|done]. simpl. by rewrite E.
  - apply IH in Hrun as (k & image & Hk & Hout & ->). exists (S k), image.
    split; [simpl; lia|]. split; [|done].
    change (attempt_outcomes path window (S (S k)) (world st))
      with (let '(o, w') := raster_read path window (world st) in
            o :: attempt_outcomes path window (S k) w').
    rewrite E. simpl in Hout |- *. by rewrite Hout.
Qed.

Lemma read_all_squeezed images_info window_info : ∀ st tiles st',
  read_all images_info window_info st = (Ok tiles, st') →
  ∀ tile, tile ∈ tiles → 1 ∉ shape tile.
Proof.
  induction images_info as [|image_info rest IH]; intros st tiles st' Hrun tile Htile.
  - injection Hrun as <- <-. by apply elem_of_nil in Htile.
  - rewrite read_all_cons in Hrun.
    destruct (read_tile window_info (full_path image_info) 5 st) as [[t|e] st1] eqn:Ht; [|done].
    destruct (read_all rest window_info st1) as [[ts|e] st2] eqn:Hts; [|done].
    injection Hrun as <- <-. apply elem_of_cons in Htile as [->|Htile].
    + apply read_tile_loop_Ok in Ht as (k & image & _ & _ & ->).
      apply np_squeeze_no_unit_axis.
    + by eapply IH.
Qed.

End squeeze_more.

(** X10.  [read_tile] returns only the band of a successful attempt that
    came after nothing but [OSError] failures, among the first [num_tries]
    attempts.  It returns the band squeezed: the elements are those of the
    band and no axis of the result has length one. *)
Theorem read_tile_returns `{RasterStore} (window : Window) (path : string)
    (num_tries : Z) (st st' : state) (tile : ndarray) :
  read_tile window path num_tries st = (Ok tile, st') →
  ∃ (k : nat) image,
    (k < Z.to_nat num_tries)%nat
    ∧ attempt_outcomes path window (S k) (world st) = replicate k ReadOSError ++ [ReadOk image]
    ∧ tile = np_squeeze image
    ∧ data tile = data image
    ∧ 1 ∉ shape tile.
Proof.
  intros Hrun. unfold read_tile in Hrun.
  apply read_tile_loop_Ok in Hrun as (k & image & Hk & Hout & ->).
  exists k, image. rewrite length_seqZ in Hk.
  repeat split; try done. apply np_squeeze_no_unit_axis.
Qed.

Lemma read_tile_returns_witness :
  ∃ (k : nat) image,
    (k < Z.to_nat 5)%nat
    ∧ attempt_outcomes "a.tif" (0, 0, 4, 1) (S k)
        [ReadOSError; ReadOk (NDArray [1; 4] [1; 2; 3; 4])]
      = replicate k ReadOSError ++ [ReadOk image]
    ∧ row_tile = np_squeeze image
    ∧ data row_tile = data image
    ∧ 1 ∉ shape row_tile.
Proof.
  apply (read_tile_returns (0, 0, 4, 1) "a.tif" 5
           (@State scripted_store [ReadOSError; ReadOk (NDArray [1; 4] [1; 2; 3; 4])] [])
           (@State scripted_store [] ["Failed to read a.tif at (0, 0, 4, 1). Retrying 1/4."])).
  vm_compute. reflexivity.
Defined.

(** X11.  No array of an image set returned by [get_segmentation_images] has
    an axis of length one: every array is a squeezed tile.  A tile read in a
    window of height or width one therefore has fewer than two axes. *)
Theorem get_segmentation_images_squeezed `{RasterStore} (images_info : list ImageInfo)
    (window_info : Window) (st st' : state) (images : ImageSet) :
  get_segmentation_images images_info window_info st = (Ok images, st') →
  ∀ c z a, lookup2 images c z = Some a → 1 ∉ shape a.
Proof.
  intros Hrun c z a Ha. unfold get_segmentation_images in Hrun.
  destruct (get_segmentation_images_loop_reads _ _ _ _ _ _ Hrun) as [tiles Hall].
  destruct (get_segmentation_images_loop_spec _ _ ∅ _ _ _ Hall) as (images' & Hrun' & Hlook).
  rewrite Hrun in Hrun'. injection Hrun' as <-.
  rewrite Hlook in Ha. apply (read_all_squeezed _ _ _ _ _ Hall).
  destruct (last_tile (zip images_info tiles) c z) as [t|] eqn:Hlast.
  - injection Ha as ->. unfold last_tile in Hlast.
    destruct (last (filter (λ p, info_key p.1 = (c, z)) (zip images_info tiles)))
      as [[i t]|] eqn:Hl; [|done].
    injection Hlast as ->. apply last_Some_elem_of, list_elem_of_filter in Hl as [_ Hin].
    by eapply elem_of_zip_r.
  - unfold lookup2 in Ha. by rewrite lookup_empty in Ha.
Qed.

Lemma get_segmentation_images_squeezed_witness :
  1 ∉ shape row_tile.
Proof.
  apply (get_segmentation_images_squeezed
           [mkImageInfo "DAPI" 0 "a.tif"] (0, 0, 4, 1)
           (@State scripted_store [ReadOk (NDArray [1; 4] [1; 2; 3; 4])] [])
           (@State scripted_store [] [])
           dapi_row
           ltac:(vm_compute; reflexivity) "DAPI" 0 row_tile).
  vm_compute. reflexivity.
Defined.

Section prepare_more.
Context `{FloatModel} `{FilterFactory}.

(** The dictionary comprehension over [enumerate(task_z)]: it needs an image
    for every index, and then stores the image of index [i] under the [i]-th
    z-layer. *)
Lemma dict_of_enumerate_fits (filtered_images : list ndarray) (task_z : list Z) :
  ∀ (i : nat) (acc : gmap Z ndarray),
    (i + length task_z ≤ length filtered_images)%nat →
    NoDup task_z →
    ∃ z_dict,
      dict_of_enumerate filtered_images i task_z acc = Ok z_dict
      ∧ (∀ (j : nat) z, task_z !! j = Some z → z_dict !! z = filtered_images !! (i + j)%nat)
      ∧ (∀ z, z ∉ task_z → z_dict !! z = acc !! z).
Proof.
  induction task_z as [|z rest IH]; intros i acc Hlen Hnodup.
  - exists acc. split; [done|]. split; [by intros j z; rewrite lookup_nil|done].
  - simpl in Hlen |- *. apply NoDup_cons in Hnodup as [Hz Hnodup].
    destruct (lookup_lt_is_Some_2 filtered_images i) as [im Him]; [lia|].
    unfold list_getitem. rewrite Him. simpl.
    destruct (IH (S i) (<[z := im]> acc)) as (z_dict & Hrun & Hin & Hout); [lia|done|].
    exists z_dict. split; [done|]. split.
    + intros [|j] z' Hj; simpl in Hj.
      * injection Hj as <-. by rewrite (Hout z Hz), lookup_insert_eq, Nat.add_0_r.
      * rewrite (Hin j z' Hj). f_equal. lia.
    + intros z' [Hne Hz']%not_elem_of_cons. by rewrite (Hout z' Hz'), lookup_insert_ne.
Qed.

Lemma dict_of_enumerate_short (filtered_images : list ndarray) (task_z : list Z) :
  ∀ (i : nat) (acc : gmap Z ndarray),
    task_z ≠ [] →
    (length filtered_images < i + length task_z)%nat →
    dict_of_enumerate filtered_images i task_z acc
    = Raise (IndexError "list index out of range").
Proof.
  induction task_z as [|z rest IH]; intros i acc Hne Hlen; [done|].
  simpl in Hlen |- *. unfold list_getitem.
  destruct (filtered_images !! i) as [im|] eqn:Him; [|done]. simpl.
  apply lookup_lt_Some in Him. apply IH; [|lia].
  intros ->. simpl in Hlen. lia.
Qed.

Lemma dict_of_enumerate_Ok (filtered_images : list ndarray) (task_z : list Z)
    (z_dict : gmap Z ndarray) :
  task_z ≠ [] → NoDup task_z →
  dict_of_enumerate filtered_images 0 task_z ∅ = Ok z_dict →
  (length task_z ≤ length filtered_images)%nat
  ∧ (∀ (j : nat) z, task_z !! j = Some z → z_dict !! z = filtered_images !! j)
  ∧ dom z_dict = list_to_set task_z.
Proof.
  intros Hne Hnodup Hrun.
  destruct (decide (length task_z ≤ length filtered_images)%nat) as [Hlen|Hlen].
  - destruct (dict_of_enumerate_fits filtered_images task_z 0 ∅)
      as (z_dict' & Hrun' & Hin & Hout); [simpl; lia|done|].
    rewrite Hrun in Hrun'. injection Hrun' as <-.
    split; [done|]. split; [done|].
    apply set_eq. intros z. rewrite elem_of_dom, elem_of_list_to_set. split.
    + intros Hz. destruct (decide (z ∈ task_z)) as [Hin'|Hout']; [done|].
      rewrite (Hout z Hout'), lookup_empty in Hz. by destruct Hz.
    + intros [j Hj]%list_elem_of_lookup. rewrite (Hin j z Hj). simpl.
      apply lookup_lt_is_Some_2. apply lookup_lt_Some in Hj. lia.
  - rewrite dict_of_enumerate_short in Hrun by (done || simpl; lia). done.
Qed.

(** What the loop leaves in [cur_images]: the channels of no input are
    untouched, and a channel of an input holds the dictionary built for an
    input with this channel. *)
Lemma prepare_loop_layout task images inputs : ∀ cur_images scale cur_images' scale',
  prepare_loop task images (cur_images, scale) inputs = Ok (cur_images', scale') →
  (∀ c, c ∉ image_channel <$> inputs → cur_images' !! c = cur_images !! c)
  ∧ (∀ c, c ∈ image_channel <$> inputs →
       ∃ input_info task_z task_images filtered_images cur_scale z_dict,
         input_info ∈ inputs ∧ image_channel input_info = c
         ∧ channel_batch task images input_info
           = Ok (task_z, task_images, filtered_images, cur_scale)
         ∧ dict_of_enumerate filtered_images 0 task_z ∅ = Ok z_dict
         ∧ cur_images' !! c = Some z_dict).
Proof.
  induction inputs as [|input_info rest IH]; intros cur_images scale cur_images' scale' Hrun.
  - injection Hrun as <- <-. split; [done|]. intros c Hc. by apply elem_of_nil in Hc.
  - rewrite prepare_loop_cons in Hrun.
    destruct (prepare_input task images (cur_images, scale) input_info)
      as [[cur1 scale1]|e] eqn:Hstep; [|done].
    apply prepare_input_Ok in Hstep
      as (task_z & task_images & filtered_images & cur_scale & first & z_dict
          & Hbatch & _ & _ & _ & -> & Hdict & ->).
    destruct (IH _ _ _ _ Hrun) as [Hout Hin]. split.
    + intros c Hc. rewrite fmap_cons in Hc. apply not_elem_of_cons in Hc as [Hne Hc].
      by rewrite (Hout c Hc), lookup_insert_ne.
    + intros c Hc. destruct (decide (c ∈ image_channel <$> rest)) as [Hrest|Hrest].
      * destruct (Hin c Hrest) as (i & tz & ti & fi & cs & zd & Hi & ? & ? & ? & ?).
        exists i, tz, ti, fi, cs, zd. split; [by right|done].
      * rewrite fmap_cons in Hc. apply elem_of_cons in Hc as [->|Hc]; [|done].
        exists input_info, task_z, task_images, filtered_images, cur_scale, z_dict.
        split; [by left|]. split; [done|]. split; [done|]. split; [done|].
        by rewrite (Hout _ Hrest), lookup_insert_eq.
Qed.

Lemma task_z_of_dom task (z_stack : gmap Z ndarray) :
  list_to_set (task_z_of task z_stack) = dom z_stack ∩ z_layers task.
Proof.
  apply set_eq. intros z.
  by rewrite elem_of_list_to_set, task_z_of_elem, elem_of_intersection, elem_of_dom.
Qed.

End prepare_more.

(** X12.  The final guard of [get_prepared_images] fires exactly for a task
    without inputs, whatever the image set: when the loop over a non-empty
    list of inputs completes a scale has been set and the call returns the
    loop variables; an error of the loop is the error of the call. *)
Theorem get_prepared_images_guard `{FloatModel} `{FilterFactory}
    (task : SegTask) (images : ImageSet) :
  (task_input_data task = [] →
     get_prepared_images task images
     = Raise (ValueError ("Invalid experiment: no input images found for the task "
                            +:+ str_int (task_id task))))
  ∧ (task_input_data task ≠ [] →
     ∀ vars, prepare_loop task images (∅, None) (task_input_data task) = Ok vars →
       ∃ scale, vars.2 = Some scale ∧ get_prepared_images task images = Ok (vars.1, scale))
  ∧ (∀ e, prepare_loop task images (∅, None) (task_input_data task) = Raise e →
       get_prepared_images task images = Raise e).
Proof.
  split; [|split].
  - intros Hnil. unfold get_prepared_images. by rewrite Hnil.
  - intros Hne [cur_images scale'] Hrun.
    destruct (prepare_loop_Ok _ _ _ _ _ _ _ Hrun) as (_ & _ & Hall).
    destruct (task_input_data task) as [|input_info rest] eqn:Hinputs; [done|].
    destruct (Hall input_info) as (tz & ti & fi & cs & _ & Hcs & Hscale); [by left|].
    destruct cs as [|y cs]; [done|]. specialize (Hscale y ltac:(by left)).
    exists y. split; [done|]. unfold get_prepared_images, Scale in *.
    rewrite Hinputs, Hrun. simpl. simpl in Hscale. by rewrite Hscale.
  - intros e Hrun. unfold get_prepared_images, Scale in *. by rewrite Hrun.
Qed.

(** X13.  The layout of a returned image set, for any pipelines: the task
    has inputs, the channels of the result are the channels of the inputs,
    and the dictionary of a channel is never empty, has the z-layers of the
    task that the channel has in the input image set, and holds under the
    [i]-th of them in ascending order the [i]-th image returned by the
    pipeline of an input with this channel; the pipeline returned at least
    as many images as there are such z-layers. *)
Theorem get_prepared_images_layout `{FloatModel} `{FilterFactory}
    (task : SegTask) (images cur_images : ImageSet) (scale : Scale) :
  get_prepared_images task images = Ok (cur_images, scale) →
  task_input_data task ≠ []
  ∧ dom cur_images = list_to_set (image_channel <$> task_input_data task)
  ∧ ∀ c z_dict, cur_images !! c = Some z_dict →
      ∃ z_stack input_info task_images filtered_images,
        images !! c = Some z_stack
        ∧ dom z_dict = dom z_stack ∩ z_layers task
        ∧ z_dict ≠ ∅
        ∧ input_info ∈ task_input_data task
        ∧ image_channel input_info = c
        ∧ Forall2 (λ z im, z_stack !! z = Some im) (task_z_of task z_stack) task_images
        ∧ create_filter_by_sequence (image_preprocessing input_info) task_images
          = Ok filtered_images
        ∧ (length (task_z_of task z_stack) ≤ length filtered_images)%nat
        ∧ ∀ (i : nat) z, task_z_of task z_stack !! i = Some z →
                         z_dict !! z = filtered_images !! i.
Proof.
  intros Hrun. unfold get_prepared_images in Hrun. unfold mbind, result_bind in Hrun.
  destruct (prepare_loop task images (∅, None) (task_input_data task))
    as [[cur_images' scale']|e] eqn:Hloop; [|done].
  simpl in Hrun. destruct scale' as [scale''|]; [|done]. injection Hrun as -> ->.
  destruct (prepare_loop_Ok _ _ _ _ _ _ _ Hloop) as (_ & Hnil & _).
  destruct (prepare_loop_layout _ _ _ _ _ _ _ Hloop) as [Hout Hin].
  split; [by intros E; specialize (Hnil E)|].
  assert (∀ c, is_Some (cur_images !! c) ↔ c ∈ image_channel <$> task_input_data task)
    as Hdom.
  { intros c. split.
    - intros Hc. destruct (decide (c ∈ image_channel <$> task_input_data task)); [done|].
      rewrite Hout, lookup_empty in Hc by done. by destruct Hc.
    - intros Hc. destruct (Hin c Hc) as (? & ? & ? & ? & ? & zd & _ & _ & _ & _ & ->). done. }
  split.
  { apply set_eq. intros c. by rewrite elem_of_dom, elem_of_list_to_set. }
  intros c z_dict Hc.
  destruct (Hin c) as (input_info & tz & ti & fi & cs & zd & Hi & Hch & Hbatch & Hdict & Hzd).
  { apply Hdom. by rewrite Hc. }
  rewrite Hc in Hzd. injection Hzd as <-.
  apply channel_batch_Ok in Hbatch as (z_stack & Hstack & -> & Hne & Himages & Hfilter & _).
  destruct (dict_of_enumerate_Ok _ _ _ Hne (task_z_of_NoDup _ _) Hdict)
    as (Hlen & Hlook & Hkeys).
  exists z_stack, input_info, ti, fi. rewrite <- Hch. split; [done|].
  split; [by rewrite Hkeys, task_z_of_dom|]. split; [|done].
  intros ->. rewrite dom_empty_L in Hkeys.
  destruct (task_z_of task z_stack) as [|z rest]; [done|]. set_solver.
Qed.

Lemma get_prepared_images_layout_witness :
  ∃ cur_images scale,
    get_prepared_images (task_on (Downsample 2) (Downsample 2)) dapi_polyt
    = Ok (cur_images, scale)
    ∧ dom cur_images = list_to_set ["DAPI"; "PolyT"].
Proof.
  destruct (get_prepared_images (task_on (Downsample 2) (Downsample 2)) dapi_polyt)
    as [[cur_images scale]|e] eqn:Hrun.
  - exists cur_images, scale. split; [reflexivity|].
    exact (proj1 (proj2 (get_prepared_images_layout _ _ _ _ Hrun))).
  - vm_compute in Hrun. discriminate Hrun.
Defined.

Section prepare_filters.
Context `{FloatModel} `{FilterFactory}.

(** An error of the loop body at an input that the loop reaches is the error
    of the call. *)
Lemma get_prepared_images_abort_input task images before input_info after vars e :
  task_input_data task = before ++ input_info :: after →
  prepare_loop task images (∅, None) before = Ok vars →
  prepare_input task images vars input_info = Raise e →
  get_prepared_images task images = Raise e.
Proof.
  intros Hin Hloop Hstep. unfold get_prepared_images.
  rewrite Hin, prepare_loop_app, Hloop.
  unfold mbind at 2, result_bind at 2. rewrite prepare_loop_cons. by rewrite Hstep.
Qed.

Lemma channel_batch_lengths task images input_info task_z task_images filtered_images
    cur_scale :
  channel_batch task images input_info
    = Ok (task_z, task_images, filtered_images, cur_scale) →
  task_z ≠ [] ∧ NoDup task_z
  ∧ length task_images = length task_z
  ∧ length cur_scale = (length task_z `min` length filtered_images)%nat.
Proof.
  intros (z_stack & _ & -> & Hne & Himages & _ & Hscale)%channel_batch_Ok.
  split; [done|]. split; [apply task_z_of_NoDup|].
  apply Forall2_length in Himages. split; [done|].
  apply mapM_result_Ok, Forall2_length in Hscale.
  by rewrite <- Hscale, length_zip, Himages.
Qed.

End prepare_filters.

(** X14.  [get_prepared_images] does not check how many images a pipeline
    returns.  A pipeline that returns no image makes the call fail with the
    [ValueError] of [min] on an empty sequence; one that returns fewer images
    than the channel has z-layers in the task, with scales that pass the
    comparison, makes the dictionary comprehension fail with an
    [IndexError]. *)
Theorem get_prepared_images_filter_length `{FloatModel} `{FilterFactory}
    (task : SegTask) (images : ImageSet) (before after : list InputData)
    (input_info : InputData) (vars : ImageSet * option Scale)
    (task_z : list Z) (task_images filtered_images : list ndarray) (cur_scale : list Scale) :
  task_input_data task = before ++ input_info :: after →
  prepare_loop task images (∅, None) before = Ok vars →
  channel_batch task images input_info
    = Ok (task_z, task_images, filtered_images, cur_scale) →
  (filtered_images = [] →
     ∃ msg, py_min [] = Raise (ValueError msg)
            ∧ get_prepared_images task images = Raise (ValueError msg))
  ∧ (filtered_images ≠ [] →
     (length filtered_images < length task_z)%nat →
     (∀ y y', y ∈ cur_scale → y' ∈ cur_scale → y = y') →
     (∀ s y, vars.2 = Some s → y ∈ cur_scale → y = s) →
     get_prepared_images task images = Raise (IndexError "list index out of range")).
Proof.
  intros Hin Hloop Hbatch.
  destruct (channel_batch_lengths _ _ _ _ _ _ _ Hbatch) as (Hne & Hnodup & Hti & Hcs).
  destruct vars as [cur_images scale]. split.
  - intros ->. simpl in Hcs. rewrite Nat.min_0_r in Hcs.
    destruct cur_scale; [|done]. eexists. split; [reflexivity|].
    eapply get_prepared_images_abort_input; [done..|].
    by rewrite prepare_input_batch, Hbatch.
  - intros Hfi Hshort Hsame Hprev.
    destruct cur_scale as [|first rest] eqn:E.
    { destruct filtered_images, task_z; done. }
    eapply get_prepared_images_abort_input; [done..|].
    rewrite (prepare_input_uniform _ _ _ _ _ _ _ _ _ first Hbatch).
    + by rewrite dict_of_enumerate_short.
    + done.
    + intros y Hy. apply Hsame; [done|by left].
    + destruct scale as [s|]; [|by left]. right. f_equal. symmetry.
      apply Hprev; [done|by left].
Qed.

Lemma get_prepared_images_filter_length_witness :
  @get_prepared_images rational_floats truncating_filters (task_truncating 0) dapi_polyt
  = Raise (ValueError "min() arg is an empty sequence")
  ∧ @get_prepared_images rational_floats truncating_filters (task_truncating 1) dapi_polyt
    = Raise (IndexError "list index out of range").
Proof.
  split.
  - destruct (@get_prepared_images_filter_length rational_floats truncating_filters
                (task_truncating 0) dapi_polyt [] [] (@mkInputData truncating_filters "DAPI" 0%nat)
                (∅, None) [0; 1] [img44; img44] [] [])
      as [(msg & Hmsg & Hrun) _]; [reflexivity|reflexivity|vm_compute; reflexivity|reflexivity|].
    injection Hmsg as <-. exact Hrun.
  - refine (proj2 (@get_prepared_images_filter_length rational_floats truncating_filters
                (task_truncating 1) dapi_polyt [] [] (@mkInputData truncating_filters "DAPI" 1%nat)
                (∅, None) [0; 1] [img44; img44] [img44] [(truediv 4 4, truediv 4 4)]
                eq_refl eq_refl _) _ _ _ _).
    + vm_compute. reflexivity.
    + done.
    + simpl. lia.
    + intros y y' ->%list_elem_of_singleton ->%list_elem_of_singleton. reflexivity.
    + intros s y Hs. discriminate Hs.
Defined.

Section prepare_restrict.
Context `{FloatModel} `{FilterFactory}.

Lemma mapM_result_ext {A B} (f g : A → result B) (l : list A) :
  (∀ x, x ∈ l → f x = g x) → mapM f l = mapM g l.
Proof.
  induction l as [|x l IH]; intros Hext; [done|]. simpl.
  rewrite (Hext x) by (by left). rewrite IH; [done|].
  intros y Hy. apply Hext. by right.
Qed.

Lemma restrict_z_lookup task (z_stack : gmap Z ndarray) z :
  z ∈ z_layers task → restrict_z task z_stack !! z = z_stack !! z.
Proof.
  intros Hz. unfold restrict_z. apply option_eq. intros im.
  rewrite map_lookup_filter_Some. simpl. naive_solver.
Qed.

Lemma restrict_z_is_Some task (z_stack : gmap Z ndarray) z :
  is_Some (restrict_z task z_stack !! z) ↔ is_Some (z_stack !! z) ∧ z ∈ z_layers task.
Proof.
  unfold restrict_z. split.
  - intros [im [? ?]%map_lookup_filter_Some]. split; [by exists im|done].
  - intros [[im Him] Hz]. exists im. by apply map_lookup_filter_Some.
Qed.

Lemma task_z_of_restrict task (z_stack1 z_stack2 : gmap Z ndarray) :
  restrict_z task z_stack1 = restrict_z task z_stack2 →
  task_z_of task z_stack1 = task_z_of task z_stack2.
Proof.
  intros Heq. apply (StronglySorted_unique_strong Z.lt).
  - intros; lia.
  - apply task_z_of_sorted.
  - apply task_z_of_sorted.
  - apply NoDup_Permutation; [apply task_z_of_NoDup..|].
    intros z. by rewrite !task_z_of_elem, <- !restrict_z_is_Some, Heq.
Qed.

Lemma channel_batch_present task images input_info (z_stack : gmap Z ndarray) :
  images !! image_channel input_info = Some z_stack →
  channel_batch task images input_info =
  (task_images ← mapM (λ z, getitem KInt z_stack z) (task_z_of task z_stack);
   if bool_decide (length (task_z_of task z_stack) = 0%nat) then
     Raise (ValueError (no_channel_images_msg (image_channel input_info) (task_id task)))
   else
     filtered_images ← create_filter_by_sequence (image_preprocessing input_info) task_images;
     cur_scale ← mapM image_scale (zip task_images filtered_images);
     Ok (task_z_of task z_stack, task_images, filtered_images, cur_scale)).
Proof.
  intros Hc. unfold channel_batch.
  rewrite (proj2 (getitem_Ok KStr images _ z_stack) Hc). reflexivity.
Qed.

Lemma channel_batch_restrict task images1 images2 input_info :
  restrict_z task <$> images1 !! image_channel input_info
  = restrict_z task <$> images2 !! image_channel input_info →
  channel_batch task images1 input_info = channel_batch task images2 input_info.
Proof.
  intros Heq.
  destruct (images1 !! image_channel input_info) as [z_stack1|] eqn:H1,
           (images2 !! image_channel input_info) as [z_stack2|] eqn:H2;
    simpl in Heq; try done.
  - injection Heq as Heq.
    rewrite (channel_batch_present _ _ _ _ H1), (channel_batch_present _ _ _ _ H2).
    rewrite (task_z_of_restrict task z_stack1 z_stack2 Heq).
    rewrite (mapM_result_ext (λ z, getitem KInt z_stack1 z) (λ z, getitem KInt z_stack2 z));
      [done|].
    intros z [_ Hz]%task_z_of_elem. unfold getitem.
    by rewrite <- (restrict_z_lookup task z_stack1 z Hz), Heq, restrict_z_lookup.
  - unfold channel_batch, getitem. by rewrite H1, H2.
Qed.

Lemma prepare_loop_restrict task images1 images2 inputs : ∀ vars,
  (∀ input_info, input_info ∈ inputs →
     restrict_z task <$> images1 !! image_channel input_info
     = restrict_z task <$> images2 !! image_channel input_info) →
  prepare_loop task images1 vars inputs = prepare_loop task images2 vars inputs.
Proof.
  induction inputs as [|input_info rest IH]; intros vars Heq; [done|].
  rewrite !prepare_loop_cons. destruct vars as [cur_images scale].
  rewrite !prepare_input_batch, (channel_batch_restrict task images1 images2 input_info)
    by (apply Heq; by left).
  destruct (channel_batch task images2 input_info) as [[[[tz ti] fi] cs]|e]; [|done].
  match goal with
  | |- match ?step with _ => _ end = _ => destruct step as [vars'|e]; [|done]
  end.
  apply IH. intros i Hi. apply Heq. by right.
Qed.

End prepare_restrict.

(** X15.  [get_prepared_images] reads the input image set only at the
    channels of the task's inputs and at the z-layers of the task: two image
    sets that agree there give the same result, image set and scale or
    error.  Other channels and other z-layers never matter. *)
Theorem get_prepared_images_restrict `{FloatModel} `{FilterFactory}
    (task : SegTask) (images1 images2 : ImageSet) :
  (∀ input_info, input_info ∈ task_input_data task →
     restrict_z task <$> images1 !! image_channel input_info
     = restrict_z task <$> images2 !! image_channel input_info) →
  get_prepared_images task images1 = get_prepared_images task images2.
Proof.
  intros Heq. unfold get_prepared_images.
  by rewrite (prepare_loop_restrict task images1 images2 _ _ Heq).
Qed.

Lemma get_prepared_images_restrict_witness :
  get_prepared_images (task_on (Downsample 2) (Downsample 2)) dapi_polyt_far
  = get_prepared_images (task_on (Downsample 2) (Downsample 2)) dapi_polyt.
Proof.
  apply get_prepared_images_restrict. intros input_info Hin.
  unfold task_on in Hin. simpl in Hin.
  apply elem_of_cons in Hin as [->|Hin]; [reflexivity|].
  apply list_elem_of_singleton in Hin as ->. reflexivity.
Defined.

(** X16.  An input channel that is absent from the image set makes the call
    fail with the [KeyError] of the subscript, for every task and image set
    in which the loop reaches that input. *)
Theorem get_prepared_images_absent_channel `{FloatModel} `{FilterFactory}
    (task : SegTask) (images : ImageSet) (before after : list InputData)
    (input_info : InputData) (vars : ImageSet * option Scale) :
  task_input_data task = before ++ input_info :: after →
  prepare_loop task images (∅, None) before = Ok vars →
  images !! image_channel input_info = None →
  get_prepared_images task images = Raise (KeyError (KStr (image_channel input_info))).
Proof.
  intros Hin Hloop Hc. eapply get_prepared_images_abort; [done..|].
  by apply channel_batch_missing.
Qed.

Lemma get_prepared_images_absent_channel_witness :
  get_prepared_images (task_with_far Identity Identity) dapi_polyt
  = Raise (KeyError (KStr "Far")).
Proof.
  apply (get_prepared_images_absent_channel (task_with_far Identity Identity) dapi_polyt
           [@mkInputData example_filters "DAPI" Identity;
            @mkInputData example_filters "PolyT" Identity] []
           (@mkInputData example_filters "Far" Identity)
           (dapi_polyt, Some (truediv 4 4, truediv 4 4))).
  - reflexivity.
  - vm_compute. reflexivity.
  - reflexivity.
Defined.

Lemma mapM_result_head_Raise {A B} (f : A → result B) (x : A) (l : list A) (e : exn) :
  f x = Raise e → mapM f (x :: l) = Raise e.
Proof. intros Hx. simpl. by rewrite Hx. Qed.

(** X17.  Images with fewer than two axes cannot be prepared: when the
    images of a reached input in the z-layers of the task have at most one
    axis, of non-zero length, and the pipeline returns them unchanged, the
    call fails with the [IndexError] of the shape subscript.  Such are the
    tiles that [read_tile] returns for a window of height one. *)
Theorem get_prepared_images_flat_images `{FloatModel} `{FilterFactory}
    (task : SegTask) (images : ImageSet) (before after : list InputData)
    (input_info : InputData) (vars : ImageSet * option Scale) (z_stack : gmap Z ndarray) :
  task_input_data task = before ++ input_info :: after →
  prepare_loop task images (∅, None) before = Ok vars →
  (∀ l, create_filter_by_sequence (image_preprocessing input_info) l = Ok l) →
  images !! image_channel input_info = Some z_stack →
  dom z_stack ∩ z_layers task ≠ ∅ →
  (∀ z im, z_stack !! z = Some im → z ∈ z_layers task →
           (length (shape im) < 2)%nat ∧ 0 ∉ shape im) →
  get_prepared_images task images = Raise (IndexError "tuple index out of range")
  ∧ ∀ width data, width ≠ 1 → shape (np_squeeze (NDArray [1; width] data)) = [width].
Proof.
  intros Hin Hloop Hid Hc Hne Hflat. split.
  - eapply get_prepared_images_abort; [done..|].
    destruct (task_images_Ok (Ok z_stack) z_stack (task_z_of task z_stack) eq_refl)
      as (ti & Hti & Hall).
    { by intros z [? _]%task_z_of_elem. }
    destruct (task_z_of task z_stack) as [|z0 tz] eqn:Hz.
    { exfalso. apply Hne. apply set_eq. intros z.
      rewrite elem_of_intersection, elem_of_dom, <- task_z_of_elem, Hz. set_solver. }
    destruct ti as [|im ti]; [by apply Forall2_nil_inv_r in Hall|].
    apply Forall2_cons in Hall as [Him _].
    assert (z0 ∈ z_layers task) as Hz0.
    { apply (task_z_of_elem task z_stack z0). rewrite Hz. by left. }
    destruct (Hflat z0 im Him Hz0) as [Hlen Hzero].
    assert (image_scale (im, im) = Raise (IndexError "tuple index out of range")) as Hscale.
    { unfold image_scale, shape_getitem, py_truediv.
      destruct (shape im) as [|n [|m rest]]; [done| |simpl in Hlen; lia].
      simpl. rewrite bool_decide_eq_false_2; [done|].
      intros ->. apply Hzero. by left. }
    unfold channel_batch. rewrite (proj2 (getitem_Ok KStr images _ z_stack) Hc).
    unfold mbind at 1, result_bind at 1. rewrite Hz, Hti.
    unfold mbind at 1, result_bind at 1. simpl length.
    rewrite bool_decide_eq_false_2 by done.
    rewrite Hid. unfold mbind at 1, result_bind at 1.
    change (zip (im :: ti) (im :: ti)) with ((im, im) :: zip ti ti).
    by rewrite (mapM_result_head_Raise image_scale _ _ _ Hscale).
  - intros width data Hw. unfold np_squeeze. simpl.
    rewrite filter_cons_False by (by intros ?). rewrite filter_cons_True by done. done.
Qed.

Lemma get_prepared_images_flat_images_witness :
  get_prepared_images task_dapi dapi_row = Raise (IndexError "tuple index out of range").
Proof.
  refine (proj1 (get_prepared_images_flat_images task_dapi dapi_row []
                   [] (@mkInputData example_filters "DAPI" Identity) (∅, None)
                   {[ 0 := row_tile ]} eq_refl eq_refl _ eq_refl _ _)).
  - intros l. reflexivity.
  - intros E. assert (0 ∈ dom ({[ 0 := row_tile ]} : gmap Z ndarray) ∩ z_layers task_dapi)
      as Hin by (by vm_compute).
    rewrite E in Hin. by apply not_elem_of_empty in Hin.
  - intros z im [_ <-]%lookup_singleton_Some _. split; [simpl; lia|].
    simpl. intros Hin. apply list_elem_of_singleton in Hin. discriminate Hin.
Defined.

(** ** The store: what a call writes *)

Section store_frame.
Context `{FloatModel} `{FilterFactory}.
Implicit Types (h : store) (n : nat).

Lemma run_bind_Ok {A B} (m : Run A) (k : A → Run B) h a h' :
  m h = (Ok a, h') → (m ≫= k) h = k a h'.
Proof. intros Hm. unfold mbind, Run_bind. by rewrite Hm. Qed.

Lemma run_bind_Raise {A B} (m : Run A) (k : A → Run B) h e h' :
  m h = (Raise e, h') → (m ≫= k) h = (Raise e, h').
Proof. intros Hm. unfold mbind, Run_bind. by rewrite Hm. Qed.

Lemma run_bind_lift {A B} (r : result A) (k : A → Run B) h :
  (Store.lift r ≫= k) h = match r with Ok a => k a h | Raise e => (Raise e, h) end.
Proof. unfold mbind, Run_bind, Store.lift. by destruct r. Qed.

(** A list of subscripts that only read the store is a list of values. *)
Lemma mapM_run_reads {A B} (f : A → Run B) (g : A → result B) (l : list A) h :
  (∀ x, x ∈ l → f x h = (g x, h)) → mapM (M:=Run) f l h = (mapM g l, h).
Proof.
  induction l as [|x l IH]; intros Hread; [done|].
  change (mapM (M:=Run) f (x :: l)) with (y ← f x; k ← mapM (M:=Run) f l; mret (y :: k)).
  change (mapM g (x :: l)) with (y ← g x; k ← mapM g l; mret (y :: k)).
  pose proof (Hread x ltac:(by left)) as Hx.
  specialize (IH ltac:(intros; apply Hread; by right)).
  destruct (g x) as [y|e].
  - rewrite (run_bind_Ok _ _ _ _ _ Hx). destruct (mapM g l) as [k|e].
    + by rewrite (run_bind_Ok _ _ _ _ _ IH).
    + by rewrite (run_bind_Raise _ _ _ _ _ IH).
  - by rewrite (run_bind_Raise _ _ _ _ _ Hx).
Qed.

Lemma store_extends_length h h' : take (length h) h' = h → (length h ≤ length h')%nat.
Proof. intros E. apply (f_equal length) in E. rewrite length_take in E. lia. Qed.

Lemma store_extends_trans h1 h2 h3 :
  take (length h1) h2 = h1 → take (length h2) h3 = h2 → take (length h1) h3 = h1.
Proof.
  intros E1 E2. pose proof (store_extends_length _ _ E1).
  rewrite <- E2 in E1. rewrite take_take in E1. by rewrite Nat.min_l in E1.
Qed.

Lemma store_extends_lookup h h' (l : loc) (o : pyobj) :
  take (length h) h' = h → h !! l = Some o → h' !! l = Some o.
Proof.
  intros E Hl. rewrite <- E in Hl. apply lookup_take_Some in Hl. by destruct Hl.
Qed.

(** The reads of the loop body leave the store as it is. *)
Lemma imageset_getitem_reads (images : loc) (key : string) h :
  (Store.imageset_getitem images key h).2 = h.
Proof. unfold Store.imageset_getitem. by destruct (h !! images) as [[?|?]|]. Qed.

Lemma zstack_keys_reads (z_stack : loc) h : (Store.zstack_keys z_stack h).2 = h.
Proof. unfold Store.zstack_keys. by destruct (h !! z_stack) as [[?|?]|]. Qed.

Lemma zstack_getitem_reads (z_stack : loc) (z : Z) h :
  (Store.zstack_getitem z_stack z h).2 = h.
Proof. unfold Store.zstack_getitem. by destruct (h !! z_stack) as [[?|?]|]. Qed.

Lemma mapM_run_store {A B} (f : A → Run B) (l : list A) :
  (∀ x h, (f x h).2 = h) → ∀ h, (mapM (M:=Run) f l h).2 = h.
Proof.
  intros Hread. induction l as [|x l IH]; intros h; [done|].
  simpl. unfold mbind at 1, Run_bind at 1.
  destruct (f x h) as [[y|e] h1] eqn:E.
  - pose proof (Hread x h) as E1. rewrite E in E1. simpl in E1. subst h1.
    unfold mbind at 1, Run_bind at 1. specialize (IH h).
    destruct (mapM f l h) as [[k|e] h2]; simpl in *; by subst.
  - pose proof (Hread x h) as E1. by rewrite E in E1.
Qed.

(** One iteration of the loop writes nothing below the reference
    [cur_images]: it only adds an object and stores into [cur_images]. *)
Local Ltac unchanged_store Hrun := injection Hrun as <- <-; split; [reflexivity|lia].

Lemma prepare_input_frame task (images cur_images : loc) scale input_info h n r h' :
  (n ≤ cur_images)%nat → (n ≤ length h)%nat →
  Store.prepare_input task images cur_images scale input_info h = (r, h') →
  take n h' = take n h ∧ (length h ≤ length h')%nat.
Proof.
  intros Hcur Hn Hrun. unfold Store.prepare_input in Hrun.
  assert (∀ z h0, ((z_stack ← Store.imageset_getitem images (image_channel input_info);
                    Store.zstack_getitem z_stack z) h0).2 = h0) as Hreads.
  { intros z h0. unfold mbind, Run_bind.
    pose proof (imageset_getitem_reads images (image_channel input_info) h0) as E0.
    destruct (Store.imageset_getitem images (image_channel input_info) h0)
      as [[zs|e0] h2]; simpl in E0; subst h2; [apply zstack_getitem_reads|done]. }
  unfold mbind at 1, Run_bind at 1 in Hrun.
  pose proof (imageset_getitem_reads images (image_channel input_info) h) as E1.
  destruct (Store.imageset_getitem images (image_channel input_info) h)
    as [[z_stack|e] h1]; simpl in E1; subst h1; [|unchanged_store Hrun].
  unfold mbind at 1, Run_bind at 1 in Hrun.
  pose proof (zstack_keys_reads z_stack h) as E2.
  destruct (Store.zstack_keys z_stack h) as [[keys|e] h1]; simpl in E2; subst h1;
    [|unchanged_store Hrun].
  unfold mbind at 1, Run_bind at 1 in Hrun.
  match type of Hrun with
  | context [mapM ?f ?l h] =>
      pose proof (mapM_run_store f l Hreads h) as E3;
      destruct (mapM f l h) as [[task_images|e] h1]
  end; simpl in E3; subst h1; [|unchanged_store Hrun].
  case_bool_decide; [unchanged_store Hrun|].
  rewrite run_bind_lift in Hrun.
  destruct (create_filter_by_sequence _ _) as [filtered_images|e]; [|unchanged_store Hrun].
  rewrite run_bind_lift in Hrun.
  destruct (mapM image_scale _) as [cur_scale|e]; [|unchanged_store Hrun].
  rewrite run_bind_lift in Hrun. destruct (py_min cur_scale) as [lo|e]; [|unchanged_store Hrun].
  rewrite run_bind_lift in Hrun. destruct (py_max cur_scale) as [hi|e]; [|unchanged_store Hrun].
  rewrite run_bind_lift in Hrun.
  match type of Hrun with
  | context [match ?d with Ok _ => _ | Raise _ => _ end] =>
      destruct d as [[|]|e]; [unchanged_store Hrun| |unchanged_store Hrun]
  end.
  rewrite run_bind_lift in Hrun.
  destruct (list_getitem cur_scale 0) as [first|e]; [|unchanged_store Hrun].
  rewrite run_bind_lift in Hrun.
  destruct (dict_of_enumerate _ _ _ _) as [z_dict|e]; [|unchanged_store Hrun].
  unfold mbind, Run_bind, Store.new_object, Store.imageset_setitem, mret, Run_ret in Hrun.
  destruct (_ !! cur_images) as [[channels|layers]|] in Hrun;
    simpl in Hrun; injection Hrun as <- <-.
  - rewrite take_insert_ge by done. rewrite take_app_le by done.
    split; [done|]. rewrite length_insert, length_app. lia.
  - rewrite take_app_le by done. split; [done|]. rewrite length_app. lia.
  - rewrite take_app_le by done. split; [done|]. rewrite length_app. lia.
Qed.

Lemma prepare_loop_frame task (images cur_images : loc) inputs : ∀ scale h n r h',
  (n ≤ cur_images)%nat → (n ≤ length h)%nat →
  Store.prepare_loop task images cur_images scale inputs h = (r, h') →
  take n h' = take n h ∧ (length h ≤ length h')%nat.
Proof.
  induction inputs as [|input_info rest IH]; intros scale h n r h' Hcur Hn Hrun.
  - injection Hrun as <- <-. by split.
  - simpl in Hrun. unfold mbind, Run_bind in Hrun.
    destruct (Store.prepare_input task images cur_images scale input_info h)
      as [[scale'|e] h1] eqn:Hstep;
      destruct (prepare_input_frame _ _ _ _ _ _ _ _ _ Hcur Hn Hstep) as [Htake Hlen].
    + destruct (IH scale' h1 n r h' Hcur ltac:(lia) Hrun) as [Htake' Hlen'].
      split; [by rewrite Htake'|lia].
    + by injection Hrun as <- <-.
Qed.

(** A call leaves every object that existed before it as it was. *)
Lemma get_prepared_images_frame task (images : loc) h :
  take (length h) (Store.get_prepared_images task images h).2 = h.
Proof.
  unfold Store.get_prepared_images, mbind, Run_bind, Store.new_object.
  destruct (Store.prepare_loop task images (length h) None (task_input_data task)
              (h ++ [ImageSetObj ∅])) as [r h1] eqn:Hloop.
  assert (length h ≤ length (h ++ [ImageSetObj ∅]))%nat as Hlen
    by (rewrite length_app; lia).
  destruct (prepare_loop_frame _ _ _ _ _ _ (length h) _ _ (le_n _) Hlen Hloop) as [Htake _].
  rewrite take_app_length in Htake.
  destruct r as [[scale|]|e]; done.
Qed.

Lemma session_frame (calls : list (SegTask * loc)) : ∀ h,
  take (length h) (Store.session calls h).2 = h.
Proof.
  induction calls as [|[task images] rest IH]; intros h; simpl; [by rewrite take_ge|].
  pose proof (get_prepared_images_frame task images h) as E1.
  destruct (Store.get_prepared_images task images h) as [r h1]. simpl in E1.
  specialize (IH h1). destruct (Store.session rest h1) as [rs h2]. simpl in *.
  by eapply store_extends_trans.
Qed.

Lemma session_app (calls1 calls2 : list (SegTask * loc)) : ∀ h,
  Store.session (calls1 ++ calls2) h =
  let '(rs1, h1) := Store.session calls1 h in
  let '(rs2, h2) := Store.session calls2 h1 in
  (rs1 ++ rs2, h2).
Proof.
  induction calls1 as [|[task images] rest IH]; intros h; simpl.
  - by destruct (Store.session calls2 h).
  - destruct (Store.get_prepared_images task images h) as [r h1]. rewrite IH.
    destruct (Store.session rest h1) as [rs1 h2].
    by destruct (Store.session calls2 h2).
Qed.

Lemma session_length (calls : list (SegTask * loc)) : ∀ h,
  length (Store.session calls h).1 = length calls.
Proof.
  induction calls as [|[task images] rest IH]; intros h; simpl; [done|].
  destruct (Store.get_prepared_images task images h) as [r h1].
  specialize (IH h1). destruct (Store.session rest h1) as [rs h2]. simpl in *. by rewrite IH.
Qed.

End store_frame.

(** ** The store: what a call computes *)

Section store_refines.
Context `{FloatModel} `{FilterFactory}.
Implicit Types (h : store) (imgs : ImageSet).

Lemma zstack_at_Some h (l : loc) (d : gmap Z ndarray) :
  Store.zstack_at h l = Some d ↔ h !! l = Some (ZStackObj d).
Proof. unfold Store.zstack_at. destruct (h !! l) as [[?|?]|]; naive_solver. Qed.

Lemma image_set_at_Some h (l : loc) imgs :
  Store.image_set_at h l = Some imgs ↔
  ∃ channels : gmap string loc,
    h !! l = Some (ImageSetObj channels)
    ∧ (∀ c l', channels !! c = Some l' → is_Some (Store.zstack_at h l'))
    ∧ imgs = omap (Store.zstack_at h) channels.
Proof.
  unfold Store.image_set_at. destruct (h !! l) as [[channels|?]|]; [|naive_solver..].
  case_bool_decide as Hall.
  - split.
    + intros [= <-]. exists channels. split; [done|]. split; [|done].
      intros c l' Hc. exact (Hall c l' Hc).
    + by intros (ch & [= <-] & _ & ->).
  - split; [done|]. intros (ch & [= <-] & Hall' & _). destruct Hall.
    intros c l'. apply Hall'.
Qed.

(** References keep their meaning in a store that extends the one they
    were read in. *)
Lemma image_set_at_extends h h' (l : loc) imgs :
  take (length h) h' = h →
  Store.image_set_at h l = Some imgs → Store.image_set_at h' l = Some imgs.
Proof.
  intros E (channels & Hl & Hall & ->)%image_set_at_Some. apply image_set_at_Some.
  exists channels. split; [by eapply store_extends_lookup|].
  assert (∀ c l', channels !! c = Some l' → Store.zstack_at h' l' = Store.zstack_at h l')
    as Hsame.
  { intros c l' Hc. destruct (Hall c l' Hc) as [d Hd]. rewrite Hd.
    apply zstack_at_Some. eapply store_extends_lookup; [done|]. by apply zstack_at_Some. }
  split.
  - intros c l' Hc. rewrite (Hsame c l' Hc). eauto.
  - apply map_eq. intros c. rewrite !lookup_omap.
    destruct (channels !! c) as [l'|] eqn:Hc; simpl; [|done]. by rewrite (Hsame c l' Hc).
Qed.

Lemma imageset_getitem_at h (images : loc) imgs (key : string) :
  Store.image_set_at h images = Some imgs →
  match imgs !! key with
  | Some d => ∃ l' : loc, Store.imageset_getitem images key h = (Ok l', h)
                          ∧ h !! l' = Some (ZStackObj d)
  | None => Store.imageset_getitem images key h = (Raise (KeyError (KStr key)), h)
  end.
Proof.
  intros (channels & Hl & Hall & ->)%image_set_at_Some. rewrite lookup_omap.
  unfold Store.imageset_getitem, getitem. rewrite Hl.
  destruct (channels !! key) as [l'|] eqn:Hc; simpl; [|done].
  destruct (Hall key l' Hc) as [d Hd]. rewrite Hd. exists l'. split; [done|].
  by apply zstack_at_Some.
Qed.

(** One iteration on the store computes what the iteration on the values
    computes; when it succeeds it has added the new z-stack and stored its
    reference in [cur_images], and when it fails it has written nothing. *)
Lemma prepare_input_refines task (images cur_images : loc) imgs (cur_value : ImageSet)
    scale input_info h (channels : gmap string loc) :
  Store.image_set_at h images = Some imgs →
  h !! cur_images = Some (ImageSetObj channels) →
  Store.prepare_input task images cur_images scale input_info h =
  match prepare_input task imgs (cur_value, scale) input_info with
  | Raise e => (Raise e, h)
  | Ok (cur_value', scale') =>
      (Ok scale',
       <[cur_images := ImageSetObj (<[image_channel input_info := length h]> channels)]>
         (h ++ [ZStackObj (default ∅ (cur_value' !! image_channel input_info))]))
  end.
Proof.
  intros Himages Hcur. rewrite prepare_input_batch.
  pose proof (imageset_getitem_at h images imgs (image_channel input_info) Himages) as Hread.
  destruct (imgs !! image_channel input_info) as [d|] eqn:Hc.
  2: { rewrite channel_batch_missing by done. unfold Store.prepare_input.
       by rewrite (run_bind_Raise _ _ _ _ _ Hread). }
  destruct Hread as (l' & Hread & Hl').
  rewrite (channel_batch_present _ _ _ _ Hc).
  unfold Store.prepare_input. rewrite (run_bind_Ok _ _ _ _ _ Hread).
  assert (Store.zstack_keys l' h = (Ok (map_to_list d).*1, h)) as Hkeys
    by (unfold Store.zstack_keys; by rewrite Hl').
  rewrite (run_bind_Ok _ _ _ _ _ Hkeys).
  fold (task_z_of task d).
  assert (mapM (M:=Run)
            (λ z, z_stack ← Store.imageset_getitem images (image_channel input_info);
                  Store.zstack_getitem z_stack z) (task_z_of task d) h
          = (mapM (λ z, getitem KInt d z) (task_z_of task d), h)) as Hmap.
  { apply mapM_run_reads. intros z _. rewrite (run_bind_Ok _ _ _ _ _ Hread).
    unfold Store.zstack_getitem. by rewrite Hl'. }
  destruct (mapM (λ z, getitem KInt d z) (task_z_of task d)) as [task_images|e];
    [rewrite (run_bind_Ok _ _ _ _ _ Hmap)|by rewrite (run_bind_Raise _ _ _ _ _ Hmap)].
  cbn [mbind result_bind].
  case_bool_decide; [reflexivity|].
  rewrite run_bind_lift.
  destruct (create_filter_by_sequence _ _) as [filtered_images|e]; [|reflexivity].
  cbn [mbind result_bind]. rewrite run_bind_lift.
  destruct (mapM image_scale _) as [cur_scale|e]; [|reflexivity].
  cbn [mbind result_bind]. rewrite run_bind_lift.
  destruct (py_min cur_scale) as [lo|e]; [|reflexivity].
  cbn [mbind result_bind]. rewrite run_bind_lift.
  destruct (py_max cur_scale) as [hi|e]; [|reflexivity].
  cbn [mbind result_bind]. rewrite run_bind_lift.
  assert (∀ (first : Scale) (z_dict : gmap Z ndarray),
            (new_stack ← Store.new_object (ZStackObj z_dict);
             Store.imageset_setitem cur_images (image_channel input_info) new_stack;;
             mret (M:=Run) (Some first)) h
            = (Ok (Some first),
               <[cur_images := ImageSetObj (<[image_channel input_info := length h]> channels)]>
                 (h ++ [ZStackObj (default ∅ (<[image_channel input_info := z_dict]> cur_value
                                                !! image_channel input_info))])))
    as Hstore.
  { intros first z_dict. unfold mbind, Run_bind, Store.new_object, Store.imageset_setitem.
    rewrite (lookup_app_l_Some _ _ _ _ Hcur). by rewrite lookup_insert_eq. }
  case_bool_decide.
  - reflexivity.
  - destruct scale as [s|].
    + destruct (list_getitem cur_scale 0) as [first|e]; [|reflexivity].
      cbn [mbind result_bind].
      case_bool_decide; [reflexivity|].
      rewrite run_bind_lift. rewrite run_bind_lift.
      destruct (dict_of_enumerate _ _ _ _) as [z_dict|e]; [|reflexivity].
      cbn [mbind result_bind]. apply Hstore.
    + rewrite run_bind_lift.
      destruct (list_getitem cur_scale 0) as [first|e]; [|reflexivity].
      cbn [mbind result_bind]. rewrite run_bind_lift.
      destruct (dict_of_enumerate _ _ _ _) as [z_dict|e]; [|reflexivity].
      cbn [mbind result_bind]. apply Hstore.
Qed.

Lemma image_set_at_stored h (cur_images : loc) (channels : gmap string loc)
    (cur_value : ImageSet) (key : string) (z_dict : gmap Z ndarray) :
  Store.image_set_at h cur_images = Some cur_value →
  h !! cur_images = Some (ImageSetObj channels) →
  Store.image_set_at
    (<[cur_images := ImageSetObj (<[key := length h]> channels)]> (h ++ [ZStackObj z_dict]))
    cur_images
  = Some (<[key := z_dict]> cur_value).
Proof.
  intros (channels' & Hl & Hall & ->)%image_set_at_Some Hcur.
  rewrite Hl in Hcur. injection Hcur as ->.
  pose proof (lookup_lt_Some _ _ _ Hl) as Hlt.
  set (h' := <[cur_images := ImageSetObj (<[key := length h]> channels)]>
               (h ++ [ZStackObj z_dict])).
  assert (Store.zstack_at h' (length h) = Some z_dict) as Hnew.
  { apply zstack_at_Some. unfold h'. rewrite list_lookup_insert_ne by lia.
    by rewrite list_lookup_middle. }
  assert (∀ c l', channels !! c = Some l' → Store.zstack_at h' l' = Store.zstack_at h l')
    as Hold.
  { intros c l' Hc. destruct (Hall c l' Hc) as [d Hd]. rewrite Hd.
    apply zstack_at_Some in Hd. apply zstack_at_Some. unfold h'.
    rewrite list_lookup_insert_ne by (intros ->; by rewrite Hl in Hd).
    by apply lookup_app_l_Some. }
  apply image_set_at_Some. exists (<[key := length h]> channels). split; [|split].
  - unfold h'. apply list_lookup_insert_eq. rewrite length_app. lia.
  - intros c l' [[<- <-]|[Hne Hc]]%lookup_insert_Some; [by rewrite Hnew|].
    rewrite (Hold c l' Hc). by eapply Hall.
  - apply map_eq. intros c. rewrite lookup_omap.
    destruct (decide (c = key)) as [->|Hne].
    + by rewrite !lookup_insert_eq.
    + rewrite !lookup_insert_ne by done. rewrite lookup_omap.
      destruct (channels !! c) as [l'|] eqn:Hc; simpl; [|done]. by rewrite (Hold c l' Hc).
Qed.

Lemma prepare_loop_refines task (images cur_images : loc) imgs inputs :
  ∀ h (cur_value : ImageSet) scale h0,
    Store.image_set_at h0 images = Some imgs →
    (length h0 ≤ cur_images)%nat →
    take (length h0) h = h0 →
    Store.image_set_at h cur_images = Some cur_value →
    ∃ h', match prepare_loop task imgs (cur_value, scale) inputs with
          | Raise e =>
              Store.prepare_loop task images cur_images scale inputs h = (Raise e, h')
          | Ok (cur_value', scale') =>
              Store.prepare_loop task images cur_images scale inputs h = (Ok scale', h')
              ∧ Store.image_set_at h' cur_images = Some cur_value'
          end.
Proof.
  induction inputs as [|input_info rest IH]; intros h cur_value scale h0 Himages Hle Hext Hcur.
  - exists h. by split.
  - rewrite prepare_loop_cons.
    pose proof (image_set_at_extends _ _ _ _ Hext Himages) as Himages'.
    pose proof Hcur as (channels & Hl & _ & _)%image_set_at_Some.
    pose proof (prepare_input_refines task images cur_images imgs cur_value scale
                  input_info h channels Himages' Hl) as Hstep.
    destruct (prepare_input task imgs (cur_value, scale) input_info)
      as [[cur_value' scale']|e] eqn:Hpure.
    + apply prepare_input_Ok in Hpure
        as (tz & ti & fi & cs & first & z_dict & _ & _ & _ & _ & -> & _ & ->).
      rewrite lookup_insert_eq in Hstep. simpl in Hstep.
      destruct (prepare_input_frame _ _ _ _ _ _ (length h0) _ _ Hle
                  (store_extends_length _ _ Hext) Hstep) as [Htake _].
      rewrite Hext in Htake.
      destruct (IH _ (<[image_channel input_info := z_dict]> cur_value) (Some first) h0
                  Himages Hle Htake (image_set_at_stored _ _ _ _ _ _ Hcur Hl)) as [h' Hrest].
      exists h'. simpl. by rewrite (run_bind_Ok _ _ _ _ _ Hstep).
    + exists h. simpl. by rewrite (run_bind_Raise _ _ _ _ _ Hstep).
Qed.

(** A call on a reference to an image set computes what
    [get_prepared_images] computes on the value of the image set, and
    returns a reference to a new object. *)
Lemma get_prepared_images_refines task (images : loc) imgs h :
  Store.image_set_at h images = Some imgs →
  match get_prepared_images task imgs with
  | Raise e => (Store.get_prepared_images task images h).1 = Raise e
  | Ok (out, scale) =>
      (Store.get_prepared_images task images h).1 = Ok (length h, scale)
      ∧ Store.image_set_at (Store.get_prepared_images task images h).2 (length h) = Some out
  end.
Proof.
  intros Himages.
  assert (Store.image_set_at (h ++ [ImageSetObj ∅]) (length h) = Some ∅) as Hcur.
  { apply image_set_at_Some. exists ∅. split; [by rewrite list_lookup_middle|].
    split; [by intros c l'; rewrite lookup_empty|]. by rewrite omap_empty. }
  destruct (prepare_loop_refines task images (length h) imgs (task_input_data task)
              (h ++ [ImageSetObj ∅]) ∅ None h Himages (le_n _) (take_app_length _ _) Hcur)
    as [h' Hloop].
  unfold get_prepared_images, Store.get_prepared_images.
  assert (Store.new_object (ImageSetObj ∅) h = (Ok (length h), h ++ [ImageSetObj ∅])) as Hnew
    by done.
  rewrite (run_bind_Ok _ _ _ _ _ Hnew).
  destruct (prepare_loop task imgs (∅, None) (task_input_data task))
    as [[cur_value [scale|]]|e]; cbn [mbind result_bind snd fst].
  - destruct Hloop as [Hloop Hout]. rewrite (run_bind_Ok _ _ _ _ _ Hloop). by split.
  - destruct Hloop as [Hloop Hout]. by rewrite (run_bind_Ok _ _ _ _ _ Hloop).
  - by rewrite (run_bind_Raise _ _ _ _ _ Hloop).
Qed.

End store_refines.

(** C8.  [get_prepared_images] keeps no state between calls and is
    determined by its arguments.  In any sequence of calls on one store, two
    calls with the same task and the same reference to an image set whose
    value is [imgs] end in the same way, the way the function ends on the
    value [imgs]: with the same error, or with the same scale and with
    references to two different new objects that hold the same image set.
    No call writes to an object that existed before it: the input image set
    and every other object of the initial store are at the end what they
    were at the start. *)
Theorem get_prepared_images_deterministic `{FloatModel} `{FilterFactory}
    (task : SegTask) (images : loc) (imgs : ImageSet)
    (before between : list (SegTask * loc)) (h : store) :
  Store.image_set_at h images = Some imgs →
  let calls := before ++ (task, images) :: between ++ [(task, images)] in
  let results := (Store.session calls h).1 in
  let h' := (Store.session calls h).2 in
  ∃ r1 r2,
    results !! length before = Some r1
    ∧ results !! (length before + S (length between))%nat = Some r2
    ∧ match get_prepared_images task imgs with
      | Raise e => r1 = Raise e ∧ r2 = Raise e
      | Ok (out, scale) =>
          ∃ l1 l2 : loc,
            r1 = Ok (l1, scale) ∧ r2 = Ok (l2, scale)
            ∧ l1 ≠ l2 ∧ (length h ≤ l1)%nat ∧ (length h ≤ l2)%nat
            ∧ Store.image_set_at h' l1 = Some out
            ∧ Store.image_set_at h' l2 = Some out
      end
    ∧ Store.image_set_at h' images = Some imgs
    ∧ take (length h) h' = h.
Proof.
  intros Himages calls results h'. unfold results, h', calls. clear results h' calls.
  rewrite session_app.
  pose proof (session_frame before h) as Fb. pose proof (session_length before h) as Lb.
  destruct (Store.session before h) as [rs_b hb]. simpl in Fb, Lb.
  change (Store.session ((task, images) :: between ++ [(task, images)]) hb)
    with (let '(r, h1) := Store.get_prepared_images task images hb in
          let '(rs, h2) := Store.session (between ++ [(task, images)]) h1 in
          (r :: rs, h2)).
  pose proof (image_set_at_extends _ _ _ _ Fb Himages) as Hb.
  pose proof (get_prepared_images_refines task images imgs hb Hb) as R1.
  pose proof (get_prepared_images_frame task images hb) as F1.
  destruct (Store.get_prepared_images task images hb) as [r1 h1]. simpl in R1, F1.
  rewrite session_app.
  pose proof (session_frame between h1) as Fm. pose proof (session_length between h1) as Lm.
  destruct (Store.session between h1) as [rs_m hm]. simpl in Fm, Lm.
  change (Store.session [(task, images)] hm)
    with (let '(r, h2) := Store.get_prepared_images task images hm in (r :: [], h2)).
  pose proof (store_extends_trans _ _ _ Fb F1) as Fb1.
  pose proof (store_extends_trans _ _ _ Fb1 Fm) as Fbm.
  pose proof (image_set_at_extends _ _ _ _ Fbm Himages) as Hm.
  pose proof (get_prepared_images_refines task images imgs hm Hm) as R2.
  pose proof (get_prepared_images_frame task images hm) as F2.
  destruct (Store.get_prepared_images task images hm) as [r2 h2]. simpl in R2, F2.
  pose proof (store_extends_trans _ _ _ Fbm F2) as Fb2.
  simpl. exists r1, r2. split; [|split; [|split; [|split]]].
  - rewrite lookup_app_r by lia. by rewrite Lb, Nat.sub_diag.
  - rewrite lookup_app_r by lia. rewrite Lb.
    replace (length before + S (length between) - length before)%nat
      with (S (length between)) by lia.
    simpl. rewrite lookup_app_r by lia. by rewrite Lm, Nat.sub_diag.
  - destruct (get_prepared_images task imgs) as [[out scale]|e]; [|done].
    destruct R1 as [-> Hout1], R2 as [-> Hout2].
    pose proof Hout1 as (? & Hl1%lookup_lt_Some & _)%image_set_at_Some.
    pose proof (store_extends_length _ _ Fb). pose proof (store_extends_length _ _ Fm).
    pose proof (store_extends_length _ _ F1).
    exists (length hb), (length hm). repeat split; try done; try lia.
    exact (image_set_at_extends _ _ _ _ F2 (image_set_at_extends _ _ _ _ Fm Hout1)).
  - exact (image_set_at_extends _ _ _ _ Fb2 Himages).
  - done.
Qed.

(** Two calls on [dapi_polyt] with the identity pipelines, and between them
    a call that fails at its second input after it has stored the first. *)
Lemma get_prepared_images_deterministic_witness :
  Store.image_set_at dapi_polyt_store 2%nat = Some dapi_polyt
  ∧ ∃ r1 r2,
      (Store.session [(task_on Identity Identity, 2%nat);
                      (task_on (Downsample 2) Identity, 2%nat);
                      (task_on Identity Identity, 2%nat)] dapi_polyt_store).1 !! 0%nat
      = Some r1
      ∧ (Store.session [(task_on Identity Identity, 2%nat);
                        (task_on (Downsample 2) Identity, 2%nat);
                        (task_on Identity Identity, 2%nat)] dapi_polyt_store).1 !! 2%nat
        = Some r2
      ∧ match get_prepared_images (task_on Identity Identity) dapi_polyt with
        | Raise e => r1 = Raise e ∧ r2 = Raise e
        | Ok (out, scale) =>
            ∃ l1 l2 : loc,
              r1 = Ok (l1, scale) ∧ r2 = Ok (l2, scale)
              ∧ l1 ≠ l2 ∧ (3 ≤ l1)%nat ∧ (3 ≤ l2)%nat
              ∧ Store.image_set_at
                  (Store.session [(task_on Identity Identity, 2%nat);
                                  (task_on (Downsample 2) Identity, 2%nat);
                                  (task_on Identity Identity, 2%nat)] dapi_polyt_store).2 l1
                = Some out
              ∧ Store.image_set_at
                  (Store.session [(task_on Identity Identity, 2%nat);
                                  (task_on (Downsample 2) Identity, 2%nat);
                                  (task_on Identity Identity, 2%nat)] dapi_polyt_store).2 l2
                = Some out
        end
      ∧ Store.image_set_at
          (Store.session [(task_on Identity Identity, 2%nat);
                          (task_on (Downsample 2) Identity, 2%nat);
                          (task_on Identity Identity, 2%nat)] dapi_polyt_store).2 2%nat
        = Some dapi_polyt
      ∧ take 3 (Store.session [(task_on Identity Identity, 2%nat);
                               (task_on (Downsample 2) Identity, 2%nat);
                               (task_on Identity Identity, 2%nat)] dapi_polyt_store).2
        = dapi_polyt_store.
Proof.
  assert (Store.image_set_at dapi_polyt_store 2%nat = Some dapi_polyt) as Hat
    by (vm_compute; reflexivity).
  split; [exact Hat|].
  exact (get_prepared_images_deterministic (task_on Identity Identity) 2%nat dapi_polyt
           [] [(task_on (Downsample 2) Identity, 2%nat)] dapi_polyt_store Hat).
Defined.
